(** * ClearCV: the scoring and insight pipeline of the resume analyzer

    A shallow embedding of [src/app.py] (the normalization loop of [main]) and
    of [src/analysis.py] ([calculate_overall_score], [calculate_category_scores],
    [generate_recruiter_insights]), with the statements of the specification
    proved or refuted against it. Further properties cover these functions,
    the response handling of [analyze_resume], [create_severity_breakdown] of
    [src/visualization.py] and [sanitize_text] of [src/pdf_generator.py].

    Python objects are modelled as follows.
    - A check result is a [dict]: a finite map from field names to values
      ([gmap string val]); a missing key raises [KeyError].
    - Python [int] is [Z]; Python [float] is IEEE 754 binary64, taken from
      the standard library's executable specification [SpecFloat]
      ([prec = 53], [emax = 1024]), so every score below is the double that
      CPython computes, bit for bit.
    - Exceptions are the [Raise] outcomes of an error monad. *)

From Stdlib Require Import ZArith Lia SpecFloat.
From stdpp Require Import gmap strings list pretty.

Local Open Scope Z_scope.

(** ** Python numbers *)

Module Float.
Definition prec : Z := 53.
Definition emax : Z := 1024.

(** [float(z)] for a Python int: the nearest double, ties to even.
    (CPython raises [OverflowError] where this yields an infinity, that
    is for [|z| >= 2^1024]; a total severity of that size needs more than
    [10^307] checks of severity 10.) *)
Definition of_int (z : Z) : spec_float := binary_normalize prec emax z 0 false.

Definition mul : spec_float -> spec_float -> spec_float := SFmul prec emax.
Definition sub : spec_float -> spec_float -> spec_float := SFsub prec emax.
Definition div : spec_float -> spec_float -> spec_float := SFdiv prec emax.

(** A decimal literal [n/d] of the source text ([0.77] is [literal 77 100]):
    the double nearest to the rational. *)
Definition literal (n d : Z) : spec_float := div (of_int n) (of_int d).

(** The integer nearest to [10 * m * 2^e], ties to even: the digits that
    [round(x, 1)] keeps of [x = m * 2^e]. *)
Definition tenths_nearest (m : positive) (e : Z) : Z :=
  let n := 10 * Z.pos m in
  if 0 <=? e then n * 2 ^ e
  else
    let d := 2 ^ (- e) in
    let q := n / d in
    match 2 * (n mod d) ?= d with
    | Lt => q
    | Gt => q + 1
    | Eq => if Z.even q then q else q + 1
    end.

(** [round(x, 1)] on a float: CPython rounds the exact binary value to one
    decimal (half to even) and converts the decimal string back to the
    nearest double. *)
Definition round1 (f : spec_float) : spec_float :=
  match f with
  | S754_finite s m e =>
      let n := tenths_nearest m e in
      if n =? 0 then S754_zero s
      else div (of_int (cond_Zopp s n)) (of_int 10)
  | _ => f
  end.

(** Exact comparison of a float with a Python int, as [float_richcompare]
    does it. *)
Definition compare_int (f : spec_float) (z : Z) : option comparison :=
  match f with
  | S754_nan => None
  | S754_infinity s => Some (if s then Lt else Gt)
  | S754_zero _ => Some (0 ?= z)
  | S754_finite s m e =>
      let v := cond_Zopp s (Z.pos m) in
      if 0 <=? e then Some (v * 2 ^ e ?= z) else Some (v ?= z * 2 ^ (- e))
  end.
End Float.

(** The value of a numeric expression: Python keeps [int] and [float]
    apart ([max(0, x)] returns the int [0], [round] of an int is an int). *)
Inductive num :=
  | NInt (z : Z)
  | NFloat (f : spec_float).

Definition to_float (n : num) : spec_float :=
  match n with
  | NInt z => Float.of_int z
  | NFloat f => f
  end.

(** [a * b] and [a - b]: int arithmetic on two ints, float arithmetic (after
    converting the int operand) otherwise. *)
Definition num_mul (a b : num) : num :=
  match a, b with
  | NInt x, NInt y => NInt (x * y)
  | _, _ => NFloat (Float.mul (to_float a) (to_float b))
  end.

Definition num_sub (a b : num) : num :=
  match a, b with
  | NInt x, NInt y => NInt (x - y)
  | _, _ => NFloat (Float.sub (to_float a) (to_float b))
  end.

Definition num_compare (a b : num) : option comparison :=
  match a, b with
  | NInt x, NInt y => Some (x ?= y)
  | NFloat f, NFloat g => SFcompare f g
  | NFloat f, NInt y => Float.compare_int f y
  | NInt x, NFloat g => option_map CompOpp (Float.compare_int g x)
  end.

Definition num_lt (a b : num) : bool :=
  match num_compare a b with Some Lt => true | _ => false end.

Definition num_gt (a b : num) : bool :=
  match num_compare a b with Some Gt => true | _ => false end.

Definition num_le (a b : num) : bool :=
  match num_compare a b with Some (Lt | Eq) => true | _ => false end.

(** The built-ins [min(a, b)] and [max(a, b)]: the first argument is kept
    unless the second is strictly smaller (larger). *)
Definition py_min (a b : num) : num := if num_lt b a then b else a.
Definition py_max (a b : num) : num := if num_gt b a then b else a.

(** [round(x, 1)]. *)
Definition py_round1 (x : num) : num :=
  match x with
  | NInt z => NInt z
  | NFloat f => NFloat (Float.round1 f)
  end.

(** The float with the decimal expansion [n / 10] (as [92.3] is
    [tenths 923]). *)
Definition tenths (n : Z) : num := NFloat (Float.literal n 10).

(** ** Values, dictionaries and exceptions *)

Inductive val :=
  | VBool (b : bool)
  | VInt (z : Z)
  | VStr (s : string).

#[global] Instance val_eq_dec : EqDecision val.
Proof. solve_decision. Defined.

Inductive exn :=
  | KeyError (key : string)
  | TypeError
  | ZeroDivisionError.

Inductive res (A : Type) :=
  | Ok (a : A)
  | Raise (e : exn).
Arguments Ok {A} a.
Arguments Raise {A} e.

#[global] Instance res_ret : MRet res := fun A a => Ok a.
#[global] Instance res_bind : MBind res :=
  fun A B f m => match m with Ok a => f a | Raise e => Raise e end.

(** [d[key]] *)
Definition getitem (d : gmap string val) (key : string) : res val :=
  match d !! key with
  | Some v => Ok v
  | None => Raise (KeyError key)
  end.

(** Truth value of an object ([not v] is its negation). *)
Definition truthy (v : val) : bool :=
  match v with
  | VBool b => b
  | VInt z => negb (z =? 0)
  | VStr s => negb (String.eqb s "")
  end.

(** The integer an object stands for in arithmetic and ordering against an
    int ([bool] is a subclass of [int]); a [str] has none. *)
Definition as_int (v : val) : option Z :=
  match v with
  | VBool b => Some (if b then 1 else 0)
  | VInt z => Some z
  | VStr _ => None
  end.

(** [v >= n], [v < n] against an int literal. *)
Definition py_ge (v : val) (n : Z) : res bool :=
  match as_int v with
  | Some z => Ok (n <=? z)
  | None => Raise TypeError
  end.

Definition py_lt (v : val) (n : Z) : res bool :=
  match as_int v with
  | Some z => Ok (z <? n)
  | None => Raise TypeError
  end.

(** [acc + v] with an int accumulator, as [sum] performs it. *)
Definition py_add (acc : Z) (v : val) : res Z :=
  match as_int v with
  | Some z => Ok (acc + z)
  | None => Raise TypeError
  end.

(** [str(v)], the text an f-string inserts. *)
Definition py_str (v : val) : string :=
  match v with
  | VBool true => "True"
  | VBool false => "False"
  | VInt z => pretty z
  | VStr s => s
  end.

(** [v == s] against a string literal. *)
Definition eq_str (v : val) (s : string) : bool :=
  match v with
  | VStr s' => String.eqb s' s
  | _ => false
  end.

(** A list comprehension [[x for x in l if f x]] whose condition may raise. *)
Fixpoint filterM {A} (f : A -> res bool) (l : list A) : res (list A) :=
  match l with
  | [] => Ok []
  | x :: l' =>
      b ← f x;
      r ← filterM f l';
      Ok (if b : bool then x :: r else r)
  end.

(** ** Score Calculator: [calculate_overall_score] *)

(** [not check['passed'] and check['severity'] >= 4] *)
Definition is_significant (check : gmap string val) : res bool :=
  passed ← getitem check "passed";
  if truthy passed then Ok false
  else severity ← getitem check "severity"; py_ge severity 4.

(** [sum(check['severity'] for check in checks)], from accumulator [acc]. *)
Fixpoint sum_severity (acc : Z) (checks : list (gmap string val)) : res Z :=
  match checks with
  | [] => Ok acc
  | check :: rest =>
      severity ← getitem check "severity";
      acc' ← py_add acc severity;
      sum_severity acc' rest
  end.

(** The body shared by the copies of the function; they differ in the
    penalty literal only. *)
Definition overall_score_with (K : spec_float) (results : list (gmap string val))
  : res num :=
  match results with
  | [] => Ok (NInt 0)
  | _ =>
      significant_issues ← filterM is_significant results;
      total_severity ← sum_severity 0 significant_issues;
      let score := num_sub (NInt 100) (num_mul (NInt total_severity) (NFloat K)) in
      let score := py_max (NInt 0) (py_min (NInt 100) score) in
      Ok (py_round1 score)
  end.

(** [src/analysis.py]: [score = base_score - (total_severity * 0.77)] *)
Definition calculate_overall_score : list (gmap string val) -> res num :=
  overall_score_with (Float.literal 77 100).

(** [src/Previous Code Files/c4.py] (and [submitted_gemini.py]):
    [score = base_score - (total_severity * 1.2)] *)
Definition calculate_overall_score_c4 : list (gmap string val) -> res num :=
  overall_score_with (Float.literal 12 10).


(** ** Result Normalizer: the loop of [main] in [src/app.py]

    [for result in results:
       if not result['passed'] and result['severity'] < 4:
         result['passed'] = True; result['severity'] = 0;
         result['explanation'] = ""]

    The loop rewrites each dictionary in place; [normalize_check] is the
    dictionary it leaves behind, [normalization] the list after the loop. *)

Definition normalize_check (result : gmap string val) : res (gmap string val) :=
  passed ← getitem result "passed";
  if truthy passed then Ok result
  else
    severity ← getitem result "severity";
    low ← py_lt severity 4;
    if low : bool then
      Ok (<["explanation" := VStr ""]>
            (<["severity" := VInt 0]> (<["passed" := VBool true]> result)))
    else Ok result.

Fixpoint normalization (results : list (gmap string val))
  : res (list (gmap string val)) :=
  match results with
  | [] => Ok []
  | r :: rest =>
      r' ← normalize_check r;
      rest' ← normalization rest;
      Ok (r' :: rest')
  end.

(** ** Category Aggregator: [calculate_category_scores] *)

Definition category_names : list string :=
  ["Content"; "Format"; "Consistency"; "Relevance"; "Credibility"].

(** [categories = {"Content": [], ..., "Credibility": []}] *)
Definition empty_categories : gmap string (list (gmap string val)) :=
  list_to_map ((fun c => (c, [])) <$> category_names).

(** One round of the grouping loop. [check.copy()] is a new dictionary with
    the same items, so the demotion below does not reach [check]; the
    store-passing version further down makes the copy explicit. *)
Definition group_check (check : gmap string val)
    (categories : gmap string (list (gmap string val)))
  : res (gmap string (list (gmap string val))) :=
  is_sig ← is_significant check;
  let check_result := check in
  demote ← (if is_sig : bool then Ok false
            else passed ← getitem check "passed"; Ok (negb (truthy passed)));
  let check_result :=
    if demote : bool then <["passed" := VBool true]> check_result else check_result in
  category ← getitem check_result "category";
  match category with
  | VStr c =>
      match categories !! c with
      | Some checks => Ok (<[c := checks ++ [check_result]]> categories)
      | None => Ok categories
      end
  | _ => Ok categories
  end.

Fixpoint group_checks (category_results : list (gmap string val))
    (categories : gmap string (list (gmap string val)))
  : res (gmap string (list (gmap string val))) :=
  match category_results with
  | [] => Ok categories
  | check :: rest =>
      categories' ← group_check check categories;
      group_checks rest categories'
  end.

(** [sum(1 for check in checks if check['passed'])], from [acc]. *)
Fixpoint count_passed (acc : Z) (checks : list (gmap string val)) : res Z :=
  match checks with
  | [] => Ok acc
  | check :: rest =>
      passed ← getitem check "passed";
      count_passed (if truthy passed then acc + 1 else acc) rest
  end.

(** [sum(check['severity'] for check in checks if not check['passed'])] *)
Fixpoint sum_failed_severity (acc : Z) (checks : list (gmap string val)) : res Z :=
  match checks with
  | [] => Ok acc
  | check :: rest =>
      passed ← getitem check "passed";
      if truthy passed then sum_failed_severity acc rest
      else
        severity ← getitem check "severity";
        acc' ← py_add acc severity;
        sum_failed_severity acc' rest
  end.

(** [a / b] (true division) on ints: the correctly rounded quotient. The
    operands here are the literal 10, a count and a list length; they are
    exact as doubles, so dividing the converted operands is CPython's
    result. *)
Definition num_truediv (a b : Z) : res num :=
  if b =? 0 then Raise ZeroDivisionError
  else Ok (NFloat (Float.div (Float.of_int a) (Float.of_int b))).

(** The body of the scoring loop for one category. *)
Definition score_category (checks : list (gmap string val)) : res num :=
  match checks with
  | [] => Ok (NInt 100)
  | _ =>
      passed ← count_passed 0 checks;
      let total := Z.of_nat (length checks) in
      severity_sum ← sum_failed_severity 0 checks;
      severity_deduction ←
        (if 0 <? total then
           q ← num_truediv 10 total; Ok (num_mul (NInt severity_sum) q)
         else Ok (NInt 0));
      score ←
        (if 0 <? total then
           q ← num_truediv passed total; Ok (num_mul (NInt 100) q)
         else Ok (NInt 100));
      let score := py_max (NInt 0) (num_sub score severity_deduction) in
      Ok (py_round1 score)
  end.

(** [for category, checks in categories.items(): ...], in insertion order. *)
Fixpoint score_categories (names : list string)
    (categories : gmap string (list (gmap string val)))
    (category_scores : gmap string num) : res (gmap string num) :=
  match names with
  | [] => Ok category_scores
  | category :: rest =>
      score ← score_category (default [] (categories !! category));
      score_categories rest categories (<[category := score]> category_scores)
  end.

Definition calculate_category_scores (category_results : list (gmap string val))
  : res (gmap string num) :=
  categories ← group_checks category_results empty_categories;
  score_categories category_names categories ∅.

(** ** Insight Generator: [generate_recruiter_insights] *)

(** The dictionaries the function appends to [insights]. *)
Record insight := Insight {
  type : string;
  title : string;
  description : string;
  items : list string
}.

(** A value of the strengths record: a string or a list of strings. *)
Inductive sval :=
  | SStr (s : string)
  | SList (l : list string).

Definition truthy_s (v : sval) : bool :=
  match v with
  | SStr s => negb (String.eqb s "")
  | SList l => negb (bool_decide (l = []))
  end.

(** The double-quote character of the interview templates. *)
Definition dquote : string := String (Ascii.ascii_of_nat 34) EmptyString.

(** [[c for c in checks if c['severity'] >= 8]] *)
Definition is_deal_breaker (check : gmap string val) : res bool :=
  severity ← getitem check "severity"; py_ge severity 8.

(** [[c for c in checks if 4 <= c['severity'] < 8]] *)
Definition is_red_flag (check : gmap string val) : res bool :=
  severity ← getitem check "severity";
  lower ← py_ge severity 4;
  if lower : bool then py_lt severity 8 else Ok false.

(** [f"{check['check_name']}: {check['explanation']}"] *)
Definition issue_item (check : gmap string val) : res string :=
  name ← getitem check "check_name";
  explanation ← getitem check "explanation";
  Ok (py_str name +:+ ": " +:+ py_str explanation).

Fixpoint issue_items (checks : list (gmap string val)) : res (list string) :=
  match checks with
  | [] => Ok []
  | check :: rest =>
      item ← issue_item check;
      rest' ← issue_items rest;
      Ok (item :: rest')
  end.

Definition critical_insight (deal_breakers : list (gmap string val)) : res (list insight) :=
  match deal_breakers with
  | [] => Ok []
  | _ =>
      its ← issue_items deal_breakers;
      Ok [Insight "critical" "Critical Issues Detected"
            ("Found " +:+ pretty (length deal_breakers) +:+
             " critical issues that may significantly impact candidate viability.")
            its]
  end.

Definition warning_insight (red_flags : list (gmap string val)) : res (list insight) :=
  match red_flags with
  | [] => Ok []
  | _ =>
      its ← issue_items red_flags;
      Ok [Insight "warning" "Potential Red Flags"
            ("Found " +:+ pretty (length red_flags) +:+
             " issues that warrant further discussion with the candidate.")
            its]
  end.

(** The text after ["Top skills: "]. *)
Definition format_top_skills (top_skills : sval) : string :=
  match top_skills with
  | SList l => String.concat ", " l
  | SStr s => s
  end.

(** The text after ["Standout feature: "]:
    [joined_wow = ', '.join(wow_factor[:-1])], then
    [joined_wow += f", and {wow_factor[-1]}"] if [len(wow_factor) > 1],
    else [joined_wow = wow_factor[0]]. *)
Definition format_wow_factor (wow_factor : sval) : string :=
  match wow_factor with
  | SList l =>
      let joined_wow := String.concat ", " (removelast l) in
      if (1 <? length l)%nat then joined_wow +:+ ", and " +:+ List.last l ""
      else List.hd "" l
  | SStr s => s
  end.

Definition strength_insight (strengths : gmap string sval) : list insight :=
  let top_skills := default (SList []) (strengths !! "top_skills") in
  let wow_factor := default (SStr "") (strengths !! "wow_factor") in
  if truthy_s top_skills || truthy_s wow_factor then
    let strength_items :=
      (if truthy_s top_skills
       then ["Top skills: " +:+ format_top_skills top_skills] else [])
      ++ (if truthy_s wow_factor
          then ["Standout feature: " +:+ format_wow_factor wow_factor] else []) in
    [Insight "strength" "Resume Strengths"
       "Key strengths identified in this candidate's resume:" strength_items]
  else [].

(** One round of the interview loop: the questions it appends. *)
Definition interview_question (check : gmap string val) : res (list string) :=
  name ← getitem check "check_name";
  if eq_str name "Unexplained employment gaps" then
    explanation ← getitem check "explanation";
    Ok ["Ask about the gap between positions: " +:+ dquote +:+
        py_str explanation +:+ dquote]
  else if eq_str name "Education and experience mismatch" then
    explanation ← getitem check "explanation";
    Ok ["Explore transition from education to current career path: " +:+ dquote +:+
        py_str explanation +:+ dquote]
  else if eq_str name "Experience and skills mismatch" then
    explanation ← getitem check "explanation";
    Ok ["Verify skill proficiency: " +:+ dquote +:+ py_str explanation +:+ dquote]
  else Ok [].

Fixpoint interview_questions (checks : list (gmap string val)) : res (list string) :=
  match checks with
  | [] => Ok []
  | check :: rest =>
      qs ← interview_question check;
      rest' ← interview_questions rest;
      Ok (qs ++ rest')
  end.

Definition interview_insight (questions : list string) : list insight :=
  match questions with
  | [] => []
  | _ => [Insight "interview" "Suggested Interview Questions"
            "Based on resume anomalies, consider asking:" questions]
  end.

Definition generate_recruiter_insights (results : list (gmap string val))
    (strengths : gmap string sval) : res (list insight) :=
  significant_results ← filterM is_significant results;
  deal_breakers ← filterM is_deal_breaker significant_results;
  critical ← critical_insight deal_breakers;
  red_flags ← filterM is_red_flag significant_results;
  warning ← warning_insight red_flags;
  let strength := strength_insight strengths in
  questions ← interview_questions significant_results;
  Ok (critical ++ warning ++ strength ++ interview_insight questions).

(** ** The analysis branch of [main] ([src/app.py], lines 95-110):
    normalize, then score and generate the insights from the normalized
    list. An exception of any stage propagates. *)
Record analysis := Analysis {
  overall_score : num;
  category_scores : gmap string num;
  recruiter_insights : list insight
}.

Definition main_analysis (results : list (gmap string val))
    (strengths : gmap string sval) : res analysis :=
  results ← normalization results;
  overall ← calculate_overall_score results;
  categories ← calculate_category_scores results;
  insights ← generate_recruiter_insights results strengths;
  Ok (Analysis overall categories insights).

(** ** [calculate_category_scores] over the object store

    The records of [category_results] are references to dictionaries that the
    caller still holds. [heap] maps a reference to the dictionary it denotes;
    a computation threads the heap and keeps it when an exception is raised. *)

Definition M (A : Type) : Type :=
  gmap nat (gmap string val) -> res A * gmap nat (gmap string val).

#[global] Instance M_ret : MRet M := fun A a h => (Ok a, h).
#[global] Instance M_bind : MBind M :=
  fun A B f m h =>
    match m h with
    | (Ok a, h') => f a h'
    | (Raise e, h') => (Raise e, h')
    end.

(** The dictionary behind a reference. *)
Definition deref (h : gmap nat (gmap string val)) (l : nat) : gmap string val :=
  default ∅ (h !! l).

(** [l[key]] *)
Definition getitem_ref (l : nat) (key : string) : M val :=
  fun h => (getitem (deref h l) key, h).

(** [l[key] = v] *)
Definition setitem_ref (l : nat) (key : string) (v : val) : M unit :=
  fun h => (Ok tt, <[l := <[key := v]> (deref h l)]> h).

(** [l.copy()]: a new object with the items of [l]. *)
Definition copy_ref (l : nat) : M nat :=
  fun h => let l' := fresh (dom h) in (Ok l', <[l' := deref h l]> h).

Definition lift {A} (r : res A) : M A := fun h => (r, h).

Definition is_significant_ref (check : nat) : M bool :=
  passed ← getitem_ref check "passed";
  if truthy passed then mret false
  else severity ← getitem_ref check "severity"; lift (py_ge severity 4).

Definition group_check_ref (check : nat) (categories : gmap string (list nat))
  : M (gmap string (list nat)) :=
  is_sig ← is_significant_ref check;
  check_result ← copy_ref check;
  demote ← (if is_sig : bool then mret false
            else passed ← getitem_ref check "passed"; mret (negb (truthy passed)));
  _ ← (if demote : bool then setitem_ref check_result "passed" (VBool true)
       else mret tt);
  category ← getitem_ref check_result "category";
  mret (match category with
        | VStr c =>
            match categories !! c with
            | Some checks => <[c := checks ++ [check_result]]> categories
            | None => categories
            end
        | _ => categories
        end).

Fixpoint group_checks_ref (category_results : list nat)
    (categories : gmap string (list nat)) : M (gmap string (list nat)) :=
  match category_results with
  | [] => mret categories
  | check :: rest =>
      categories' ← group_check_ref check categories;
      group_checks_ref rest categories'
  end.

(** The scoring loop only reads: it scores the dictionaries the grouped
    references denote. *)
Fixpoint score_categories_ref (names : list string)
    (categories : gmap string (list nat))
    (category_scores : gmap string num) : M (gmap string num) :=
  match names with
  | [] => mret category_scores
  | category :: rest =>
      score ← (fun h =>
        (score_category (deref h <$> default [] (categories !! category)), h));
      score_categories_ref rest categories (<[category := score]> category_scores)
  end.

Definition calculate_category_scores_ref (category_results : list nat)
  : M (gmap string num) :=
  categories ←
    group_checks_ref category_results
      (list_to_map ((fun c => (c, [])) <$> category_names));
  score_categories_ref category_names categories ∅.

(** The in-place loop of [main] over the store, for comparison: it writes
    to the caller's dictionaries. *)
Definition normalize_ref (result : nat) : M unit :=
  passed ← getitem_ref result "passed";
  if truthy passed then mret tt
  else
    severity ← getitem_ref result "severity";
    low ← lift (py_lt severity 4);
    if low : bool then
      _ ← setitem_ref result "passed" (VBool true);
      _ ← setitem_ref result "severity" (VInt 0);
      setitem_ref result "explanation" (VStr "")
    else mret tt.

Fixpoint normalization_ref (results : list nat) : M unit :=
  match results with
  | [] => mret tt
  | result :: rest => _ ← normalize_ref result; normalization_ref rest
  end.

(** ** The specification's data model and formulas *)

Module Spec.

(** A well-formed check result (section 3 of the specification). *)
Record CheckResult := {
  check_name : string;
  passed : bool;
  explanation : string;
  severity : Z;
  category : string
}.

(** A significant issue: failed, with severity at least 4. *)
Definition significant (r : CheckResult) : bool :=
  negb (passed r) && (4 <=? severity r).

(** The invariant of a normalized result. *)
Definition normalized (r : CheckResult) : Prop :=
  passed r = false -> 4 <= severity r.

Definition sum_severities (rs : list CheckResult) : Z :=
  foldr Z.add 0 (severity <$> rs).

(** 100 minus [K] times the total, clamped to [0, 100], rounded to one
    decimal. *)
Definition score_of_total (K : spec_float) (total : Z) : num :=
  py_round1
    (py_max (NInt 0)
       (py_min (NInt 100)
          (num_sub (NInt 100) (num_mul (NInt total) (NFloat K))))).

Definition overall_score (K : spec_float) (rs : list CheckResult) : num :=
  score_of_total K (sum_severities (filter (fun r => significant r = true) rs)).


(** The score of the checks of one category: 100 without checks, otherwise
    [max(0, 100 * pass_rate - severity_sum * (10 / count))] to one decimal. *)
Definition checks_score (checks : list CheckResult) : num :=
  match checks with
  | [] => NInt 100
  | _ =>
      let count := Z.of_nat (length checks) in
      let npassed := Z.of_nat (length (filter (fun r => passed r = true) checks)) in
      let severity_sum := sum_severities (filter (fun r => passed r = false) checks) in
      let pass_rate := NFloat (Float.div (Float.of_int npassed) (Float.of_int count)) in
      let per_check := NFloat (Float.div (Float.of_int 10) (Float.of_int count)) in
      py_round1
        (py_max (NInt 0)
           (num_sub (num_mul (NInt 100) pass_rate)
                    (num_mul (NInt severity_sum) per_check)))
  end.

Definition category_score (C : string) (rs : list CheckResult) : num :=
  checks_score (filter (fun r => category r = C) rs).

(** The normalizer on a well-formed result: a failure below severity 4 is
    rewritten to a pass with severity 0 and no explanation. *)
Definition normalize (r : CheckResult) : CheckResult :=
  if negb (passed r) && (severity r <? 4)
  then Build_CheckResult (check_name r) true "" 0 (category r)
  else r.

(** What the significance threshold makes of a result: a failure below
    severity 4 counts as passed. *)
Definition demote (r : CheckResult) : CheckResult :=
  if negb (passed r) && negb (significant r)
  then Build_CheckResult (check_name r) true (explanation r) (severity r) (category r)
  else r.

(** The three check names that lead to an interview question, and the
    question asked for each. *)
Definition interview_template (name : string) : option string :=
  if String.eqb name "Unexplained employment gaps"
  then Some "Ask about the gap between positions: "
  else if String.eqb name "Education and experience mismatch"
  then Some "Explore transition from education to current career path: "
  else if String.eqb name "Experience and skills mismatch"
  then Some "Verify skill proficiency: "
  else None.

Definition interview_item (r : CheckResult) : option string :=
  if significant r then
    (fun t => t +:+ dquote +:+ explanation r +:+ dquote) <$> interview_template (check_name r)
  else None.

(** The standout text for a [wow_factor], in the specification's words. *)
Definition standout (wow_factor : sval) : string :=
  match wow_factor with
  | SStr s => s
  | SList [] => ""
  | SList [x] => x
  | SList l => String.concat ", " (removelast l) +:+ ", and " +:+ List.last l ""
  end.

End Spec.

(** The dictionary of a well-formed check result. *)
Definition to_dict (r : Spec.CheckResult) : gmap string val :=
  <["check_name" := VStr (Spec.check_name r)]>
    (<["passed" := VBool (Spec.passed r)]>
       (<["explanation" := VStr (Spec.explanation r)]>
          (<["severity" := VInt (Spec.severity r)]>
             (<["category" := VStr (Spec.category r)]> ∅)))).

(** [d] carries the five fields of [r] (and possibly further keys). *)
Definition represents (d : gmap string val) (r : Spec.CheckResult) : Prop :=
  d !! "check_name" = Some (VStr (Spec.check_name r)) /\
  d !! "passed" = Some (VBool (Spec.passed r)) /\
  d !! "explanation" = Some (VStr (Spec.explanation r)) /\
  d !! "severity" = Some (VInt (Spec.severity r)) /\
  d !! "category" = Some (VStr (Spec.category r)).

(** ** Sample records and the notions the statements are phrased in *)

(** A failed check of severity 2 and a passed one, as the model returned
    them. *)
Definition sample_low : gmap string val :=
  <["check_name" := VStr "Repeated phrases"]>
    (<["passed" := VBool false]>
       (<["explanation" := VStr "one bullet twice"]>
          (<["severity" := VInt 2]> (<["category" := VStr "Content"]> ∅)))).

Definition sample_passed_dirty : gmap string val :=
  <["check_name" := VStr "Grammar or spelling mistakes"]>
    (<["passed" := VBool true]>
       (<["explanation" := VStr "minor typo"]>
          (<["severity" := VInt 7]> (<["category" := VStr "Content"]> ∅)))).

(** A passed check whose dictionary has no [severity] key. *)
Definition sample_no_severity : gmap string val :=
  <["check_name" := VStr "Missing contact information"]>
    (<["passed" := VBool true]>
       (<["explanation" := VStr ""]> (<["category" := VStr "Content"]> ∅))).

(** The loop body cannot run on a record without [passed], nor on a failed
    record without [severity]. *)
Definition lacks_needed_field (d : gmap string val) : Prop :=
  d !! "passed" = None \/
  (exists p, d !! "passed" = Some p /\ truthy p = false /\ d !! "severity" = None).

(** Scenario A: a failed check of severity 9 in "Content", two passed checks
    in "Format", and a failed check whose category is none of the five. *)
Definition scenario_A : list Spec.CheckResult :=
  [Spec.Build_CheckResult "Missing contact information" false "no email" 9 "Content";
   Spec.Build_CheckResult "Grammar or spelling mistakes" true "" 0 "Format";
   Spec.Build_CheckResult "Repeated phrases" true "" 0 "Format";
   Spec.Build_CheckResult "Frequent job switching" false "four jobs in a year" 5 "Stability"].

(** Scenario C. *)
Definition scenario_C : gmap string sval :=
  <["top_skills" := SList ["Python"; "SQL"]]>
    (<["wow_factor" := SList ["Patent A"; "Patent B"; "Patent C"]]> ∅).

(** The question one significant record contributes. *)
Definition question_of (r : Spec.CheckResult) : option string :=
  (fun t => t +:+ dquote +:+ Spec.explanation r +:+ dquote)
    <$> Spec.interview_template (Spec.check_name r).

(** Scenario E: a failed employment-gap check and a failed check of another
    name, both of severity 6. *)
Definition scenario_E : list Spec.CheckResult :=
  [Spec.Build_CheckResult "Unexplained employment gaps" false "no job in 2019-2021" 6 "Consistency";
   Spec.Build_CheckResult "Frequent job switching" false "three jobs in a year" 6 "Consistency"].

(** The grouping loop has sorted the results [rs] into [categories]. *)
Definition grouped (categories : gmap string (list (gmap string val)))
    (rs : list Spec.CheckResult) : Prop :=
  forall C,
    if bool_decide (C ∈ category_names)
    then exists checks, categories !! C = Some checks /\
           Forall2 represents checks (filter (fun r => Spec.category r = C) rs)
    else categories !! C = None.

(** The copy the loop files: the record itself, or its demoted version. *)
Definition filed (d : gmap string val) (r : Spec.CheckResult) : gmap string val :=
  if negb (Spec.passed r) && negb (Spec.significant r)
  then <["passed" := VBool true]> d else d.

(** The grouped references [cl] denote the grouped dictionaries [cd]. *)
Definition cats_rel (h : gmap nat (gmap string val))
    (cl : gmap string (list nat)) (cd : gmap string (list (gmap string val))) : Prop :=
  forall c,
    cd !! c = (fun ls => deref h <$> ls) <$> (cl !! c) /\
    (forall ls, cl !! c = Some ls -> Forall (fun l => is_Some (h !! l)) ls).

(** A store holding the two sample records. *)
Definition sample_heap : gmap nat (gmap string val) :=
  <[0%nat := sample_low]> (<[1%nat := sample_passed_dirty]> ∅).

(** A float that is [+inf] or a positive finite number of value at least
    [N] (values are compared after scaling by [2^400]). *)
Definition at_least (f : spec_float) (N e0 : Z) : Prop :=
  f = S754_infinity false \/
  exists m e, f = S754_finite false m e /\ e0 <= e /\
    N * 2 ^ 400 <= Z.pos m * 2 ^ (e + 400).

(** A float that is zero, negative or [-inf]. *)
Definition nonpos (f : spec_float) : Prop :=
  match f with
  | S754_zero _ | S754_finite true _ _ | S754_infinity true => True
  | _ => False
  end.

(** Every later entry of the list is at most every earlier one. *)
Fixpoint all_pairs_le (l : list num) : bool :=
  match l with
  | [] => true
  | x :: l' => forallb (fun y => num_le y x) l' && all_pairs_le l'
  end.

Definition K077 : spec_float := Float.literal 77 100.

Definition score_table : list num := Spec.score_of_total K077 <$> seqZ 0 131.

(** ** The critical and warning groups on well-formed results *)

(** The text of one issue: [f"{check_name}: {explanation}"]. *)
Definition issue_text (r : Spec.CheckResult) : string :=
  Spec.check_name r +:+ ": " +:+ Spec.explanation r.

(** A deal-breaker: significant, with severity 8 or more; a red flag:
    significant, with severity below 8. *)
Definition is_critical (r : Spec.CheckResult) : bool :=
  Spec.significant r && (8 <=? Spec.severity r).

Definition is_warning (r : Spec.CheckResult) : bool :=
  Spec.significant r && (Spec.severity r <? 8).

Definition critical_group (rs : list Spec.CheckResult) : list insight :=
  match filter (fun r => is_critical r = true) rs with
  | [] => []
  | c =>
      [Insight "critical" "Critical Issues Detected"
         ("Found " +:+ pretty (length c) +:+
          " critical issues that may significantly impact candidate viability.")
         (issue_text <$> c)]
  end.

Definition warning_group (rs : list Spec.CheckResult) : list insight :=
  match filter (fun r => is_warning r = true) rs with
  | [] => []
  | w =>
      [Insight "warning" "Potential Red Flags"
         ("Found " +:+ pretty (length w) +:+
          " issues that warrant further discussion with the candidate.")
         (issue_text <$> w)]
  end.

(** ** Results that score alike in a category

    Two results agree in category and outcome, and in severity where they
    failed. *)
Definition score_alike (r r' : Spec.CheckResult) : Prop :=
  Spec.category r = Spec.category r' /\
  Spec.passed r = Spec.passed r' /\
  (Spec.passed r = false -> Spec.severity r = Spec.severity r').

(** ** Severity chart: [create_severity_breakdown] ([src/visualization.py])

    [severity_levels] is a dictionary with the four levels in insertion
    order; the order decides labels and colours, so it is an association
    list here. *)

Definition initial_levels : list (string * Z) :=
  [("Critical", 0); ("Moderate", 0); ("Minor", 0); ("No Issues", 0)].

(** [severity_levels[level] += 1] *)
Definition bump (level : string) (severity_levels : list (string * Z))
  : list (string * Z) :=
  (fun '(k, count) => if String.eqb k level then (k, count + 1) else (k, count))
    <$> severity_levels.

(** One round of the counting loop. *)
Definition count_check (check : gmap string val)
    (severity_levels : list (string * Z)) : res (list (string * Z)) :=
  passed ← getitem check "passed";
  if negb (truthy passed) then
    severity ← getitem check "severity";
    critical ← py_ge severity 8;
    if critical : bool then Ok (bump "Critical" severity_levels)
    else
      severity ← getitem check "severity";
      moderate ← py_ge severity 4;
      if moderate : bool then Ok (bump "Moderate" severity_levels)
      else
        severity ← getitem check "severity";
        minor ← py_ge severity 1;
        if minor : bool then Ok (bump "Minor" severity_levels)
        else Ok severity_levels
  else Ok (bump "No Issues" severity_levels).

Fixpoint count_checks (results : list (gmap string val))
    (severity_levels : list (string * Z)) : res (list (string * Z)) :=
  match results with
  | [] => Ok severity_levels
  | check :: rest =>
      severity_levels' ← count_check check severity_levels;
      count_checks rest severity_levels'
  end.

(** [f"{level} - {count}"] where the level is shown, the empty string
    otherwise. *)
Definition custom_labels (severity_levels : list (string * Z)) : list string :=
  (fun '(level, count) =>
     if (0 <? count) || String.eqb level "No Issues"
     then level +:+ " - " +:+ pretty count else "")
    <$> severity_levels.

Definition colors : list string := ["red"; "orange"; "yellow"; "green"].

(** The data of one [go.Bar] trace. *)
Record bar := Bar {
  bar_y : string;
  bar_x : Z;
  bar_color : string;
  bar_name : string
}.

(** The traces added to the figure, one per level. [custom_labels] and
    [colors] have an entry for each of the four levels, so the index [i] is
    in range. *)
Definition bars (severity_levels : list (string * Z)) : list bar :=
  imap (fun i '(level, count) =>
          Bar (if (0 <? count) || String.eqb level "No Issues"
               then custom_labels severity_levels !!! i else "")
              count (colors !!! i) level)
       severity_levels.

Definition create_severity_breakdown (results : list (gmap string val))
  : res (list bar) :=
  severity_levels ← count_checks results initial_levels;
  Ok (bars severity_levels).

(** The number of results with a property. *)
Definition count_of (P : Spec.CheckResult -> Prop) `{!forall r, Decision (P r)}
    (rs : list Spec.CheckResult) : Z :=
  Z.of_nat (length (filter P rs)).

(** ** Report text: [sanitize_text] ([src/pdf_generator.py])

    A Python string is a sequence of code points; [None] is the absent
    argument. A character encodes in latin-1 exactly when its code point is
    below 256. *)

Definition latin1 (char : N) : bool := (char <? 256)%N.

Definition space : N := 32%N.

(** [for char in str(text): try: char.encode('latin-1'); result += char
     except UnicodeEncodeError: result += ' '] *)
Definition sanitize_text (text : option (list N)) : list N :=
  match text with
  | None => []
  | Some text =>
      foldl (fun result char =>
               if latin1 char then result ++ [char] else result ++ [space])
            [] text
  end.

(** The bullet and the cross mark that [generate_pdf_report] puts in front of
    an insight item and of a failed check. *)
Definition bullet : N := 0x2022%N.
Definition cross_mark : N := 0x274C%N.

(** [bullet_text = sanitize_text("• " + item)] *)
Definition bullet_text (item : list N) : list N :=
  sanitize_text (Some ([bullet; space] ++ item)).

(** ** Response handling: [analyze_resume] ([src/analysis.py])

    The function sends the prompt to the model and decodes the answer. The
    call to the model and [json.loads] belong to libraries: the answer of
    the first is an input here, the second a parameter. [st.error] is taken
    to return; the texts it is given are collected. *)

(** What [json.loads] returns. *)
#[warnings="-register-all"]
Inductive json :=
  | JNull
  | JBool (b : bool)
  | JInt (n : Z)
  | JFloat (f : spec_float)
  | JStr (s : string)
  | JList (l : list json)
  | JDict (items : list (string * json)).

(** What a call returns, or the text [str(e)] of the exception it raises. *)
Inductive attempt (A : Type) :=
  | Returned (a : A)
  | Raised (message : string).
Arguments Returned {A} a.
Arguments Raised {A} message.

(** The returned dictionary: [{"results": ..., "parsed": True,
    "strengths": ...}] or [{"raw_text": ..., "parsed": False}]. *)
Inductive analysis_result :=
  | Parsed (results strengths : json)
  | Unparsed (raw_text : string).

Definition type_name (v : json) : string :=
  match v with
  | JNull => "NoneType"
  | JBool _ => "bool"
  | JInt _ => "int"
  | JFloat _ => "float"
  | JStr _ => "str"
  | JList _ => "list"
  | JDict _ => "dict"
  end.

Fixpoint alist_lookup (key : string) (items : list (string * json)) : option json :=
  match items with
  | [] => None
  | (k, v) :: rest => if String.eqb k key then Some v else alist_lookup key rest
  end.

(** [results.get(key, default)]; only a dict has the method. *)
Definition py_get (results : json) (key : string) (default : json) : attempt json :=
  match results with
  | JDict items =>
      Returned (match alist_lookup key items with Some v => v | None => default end)
  | _ => Raised ("'" +:+ type_name results +:+ "' object has no attribute 'get'")
  end.

(** From [checks = results.get("checks", [])] to the [return]. *)
Definition extract_analysis (results : json) : attempt analysis_result :=
  match py_get results "checks" (JList []) with
  | Raised e => Raised e
  | Returned checks =>
      match py_get results "resume_strengths" (JDict []) with
      | Raised e => Raised e
      | Returned strengths =>
          match results with
          | JList _ => Returned (Parsed results (JDict []))
          | _ => Returned (Parsed checks strengths)
          end
      end
  end.

(** The characters [{] and [}]. *)
Definition open_brace : Ascii.ascii := Ascii.ascii_of_nat 123.
Definition close_brace : Ascii.ascii := Ascii.ascii_of_nat 125.

(** The longest prefix of [s] that ends in a closing brace. *)
Fixpoint up_to_last_close (s : string) : option string :=
  match s with
  | EmptyString => None
  | String c s' =>
      match up_to_last_close s' with
      | Some t => Some (String c t)
      | None => if Ascii.eqb c close_brace then Some (String c EmptyString) else None
      end
  end.

(** [re.search(r'\{.*\}', content, re.DOTALL)]: the search tries the start
    positions from the left; at an opening brace the greedy [.*] (which
    matches newlines too) runs to the last closing brace. Braces are ASCII,
    so the bytes of the text give the same span as its characters. *)
Fixpoint brace_span (content : string) : option string :=
  match content with
  | EmptyString => None
  | String c s' =>
      if Ascii.eqb c open_brace then
        match up_to_last_close s' with
        | Some t => Some (String c t)
        | None => brace_span s'
        end
      else brace_span s'
  end.

Fixpoint occurs (c : Ascii.ascii) (s : string) : bool :=
  match s with
  | EmptyString => false
  | String c' s' => Ascii.eqb c' c || occurs c s'
  end.

Section analyze_resume.

Variable json_loads : string -> attempt json.

Definition decode_response (text : string) : attempt analysis_result :=
  match json_loads text with
  | Raised e => Raised e
  | Returned results => extract_analysis results
  end.

(** The body of [analyze_resume] after the call to the model, which gave
    [response]. *)
Definition analyze_response (response : attempt string)
  : analysis_result * list string :=
  match response with
  | Raised e => (Unparsed e, ["Error in LLM analysis: " +:+ e])
  | Returned content =>
      match brace_span content with
      | Some json_str =>
          match decode_response json_str with
          | Returned analysis => (analysis, [])
          | Raised e => (Unparsed e, ["Error in LLM analysis: " +:+ e])
          end
      | None =>
          match decode_response content with
          | Returned analysis => (analysis, [])
          | Raised _ =>
              (Unparsed content,
               ["Failed to parse LLM response as JSON. Using text format instead."])
          end
      end
  end.

End analyze_resume.

(** A float that is zero, positive or [+inf]. *)
Definition nonneg (f : spec_float) : Prop :=
  match f with
  | S754_zero _ | S754_finite false _ _ | S754_infinity false => True
  | _ => False
  end.

(** A decoder that knows one text, and an answer of the model around it. *)
Definition sample_loads (text : string) : attempt json :=
  if String.eqb text "{}" then Returned (JDict [])
  else Raised "Expecting value: line 1 column 1 (char 0)".

Definition sample_answer : string := "Here are the results: {} (end)".

(** The penalty literal of the earlier copy, and its scores of the totals
    0..84. *)
Definition K12 : spec_float := Float.literal 12 10.

Definition score_table_12 : list num := Spec.score_of_total K12 <$> seqZ 0 85.

(** * Proofs *)

(** ** The error monad *)

Lemma bind_Ok {A B} (m : res A) (f : A -> res B) (b : B) :
  (x ← m; f x) = Ok b <-> exists a, m = Ok a /\ f a = Ok b.
Proof.
  destruct m as [a|e]; simpl; split.
  - intros H. exists a. auto.
  - intros (a' & Ha & Hf). congruence.
  - discriminate.
  - intros (a' & Ha & _). discriminate.
Qed.

Lemma bind_Ok_l {A B} (a : A) (f : A -> res B) : (x ← Ok a; f x) = f a.
Proof. reflexivity. Qed.

Lemma bind_Raise {A B} (m : res A) (f : A -> res B) (e : exn) :
  m = Raise e -> (x ← m; f x) = Raise e.
Proof. intros ->. reflexivity. Qed.

Lemma getitem_Ok d key v : getitem d key = Ok v <-> d !! key = Some v.
Proof.
  unfold getitem. destruct (d !! key); split; intros H; congruence.
Qed.

Lemma getitem_lookup d key v : d !! key = Some v -> getitem d key = Ok v.
Proof. apply getitem_Ok. Qed.

Lemma getitem_missing d key : d !! key = None -> getitem d key = Raise (KeyError key).
Proof. unfold getitem. intros ->. reflexivity. Qed.

(** ** Result Normalizer *)

(** The three ways the loop body treats a record. *)
Lemma normalize_check_Ok d d' :
  normalize_check d = Ok d' ->
  (exists p, d !! "passed" = Some p /\ truthy p = true /\ d' = d) \/
  (exists p v z, d !! "passed" = Some p /\ truthy p = false /\
     d !! "severity" = Some v /\ as_int v = Some z /\ z < 4 /\
     d' = <["explanation" := VStr ""]>
            (<["severity" := VInt 0]> (<["passed" := VBool true]> d))) \/
  (exists p v z, d !! "passed" = Some p /\ truthy p = false /\
     d !! "severity" = Some v /\ as_int v = Some z /\ 4 <= z /\ d' = d).
Proof.
  unfold normalize_check. intros H.
  apply bind_Ok in H as (p & Hp%getitem_Ok & H).
  destruct (truthy p) eqn:Ht.
  - left. exists p. by simplify_eq.
  - right. apply bind_Ok in H as (v & Hv%getitem_Ok & H).
    apply bind_Ok in H as (low & Hlow & H).
    unfold py_lt in Hlow. destruct (as_int v) as [z|] eqn:Hz; [|done].
    simplify_eq. destruct (Z.ltb_spec z 4); simplify_eq.
    + left. exists p, v, z. done.
    + right. exists p, v, z. done.
Qed.

Lemma as_int_ge_4 v z : as_int v = Some z -> 4 <= z -> v = VInt z.
Proof. destruct v as [[]| |]; simpl; intros; simplify_eq; [lia..|done]. Qed.

Lemma normalization_Ok raw out :
  normalization raw = Ok out ->
  Forall2 (fun r o => normalize_check r = Ok o) raw out.
Proof.
  revert out. induction raw as [|r raw IH]; simpl; intros out H.
  - simplify_eq. constructor.
  - apply bind_Ok in H as (r' & Hr & H).
    apply bind_Ok in H as (rest' & Hrest & H). simplify_eq.
    constructor; auto.
Qed.

Lemma normalization_Forall2 raw out :
  Forall2 (fun r o => normalize_check r = Ok o) raw out ->
  normalization raw = Ok out.
Proof.
  induction 1 as [|r o raw out Hr _ IH]; simpl; [done|].
  by rewrite Hr, IH.
Qed.

Lemma normalize_check_fixed d d' :
  normalize_check d = Ok d' -> normalize_check d' = Ok d'.
Proof.
  intros H. destruct (normalize_check_Ok _ _ H)
    as [(p & Hp & Ht & ->)|[(p & v & z & Hp & Ht & Hv & Hz & Hlt & ->)
                           |(p & v & z & Hp & Ht & Hv & Hz & Hge & ->)]];
    [done| |done].
  unfold normalize_check.
  rewrite (getitem_lookup _ "passed" (VBool true)); [done|].
  by simplify_map_eq.
Qed.

(** On well-formed records the loop never raises, and what it leaves behind
    are well-formed records that satisfy the normalized invariant. *)
Lemma normalize_check_represents d r :
  represents d r ->
  exists d', normalize_check d = Ok d' /\ represents d' (Spec.normalize r).
Proof.
  intros (Hn & Hp & He & Hs & Hc). unfold normalize_check, Spec.normalize.
  rewrite (getitem_lookup _ _ _ Hp). simpl.
  destruct (Spec.passed r) eqn:Hpass; simpl.
  - exists d. split; [done|]. unfold represents. by rewrite Hpass.
  - rewrite (getitem_lookup _ _ _ Hs). simpl.
    destruct (Spec.severity r <? 4); simpl.
    + eexists. split; [reflexivity|]. unfold represents. simpl.
      by simplify_map_eq.
    + exists d. split; [done|]. unfold represents. by rewrite Hpass.
Qed.

Lemma normalize_normalized r : Spec.normalized (Spec.normalize r).
Proof.
  unfold Spec.normalized, Spec.normalize.
  destruct (Spec.passed r) eqn:Hpass; simpl; [congruence|].
  destruct (Z.ltb_spec (Spec.severity r) 4); simpl; [done|]. intros _. lia.
Qed.

Lemma normalization_represents ds rs :
  Forall2 represents ds rs ->
  exists out, normalization ds = Ok out /\
    Forall2 represents out (Spec.normalize <$> rs) /\
    Forall Spec.normalized (Spec.normalize <$> rs).
Proof.
  induction 1 as [|d r ds rs Hd _ (out & IH & Hrep & Hnorm)]; simpl.
  - exists []. split_and!; [done|constructor..].
  - destruct (normalize_check_represents d r Hd) as (d' & -> & Hd').
    rewrite bind_Ok_l, IH, bind_Ok_l. exists (d' :: out).
    split_and!; [done|by constructor|].
    constructor; [apply normalize_normalized|done].
Qed.

(** C8. Normalization is idempotent: normalizing the list that normalization
    produced returns that list unchanged. *)
Theorem normalization_idempotent (raw out : list (gmap string val)) :
  normalization raw = Ok out -> normalization out = Ok out.
Proof.
  intros H%normalization_Ok. apply normalization_Forall2.
  induction H as [|r o raw out Hr _ IH]; constructor; [|done].
  by eapply normalize_check_fixed.
Qed.

Lemma normalization_idempotent_witness :
  let out := [<["explanation" := VStr ""]>
                (<["severity" := VInt 0]> (<["passed" := VBool true]> sample_low));
              sample_passed_dirty] in
  normalization [sample_low; sample_passed_dirty] = Ok out /\
  normalization out = Ok out.
Proof.
  assert (H : normalization [sample_low; sample_passed_dirty]
              = Ok [<["explanation" := VStr ""]>
                      (<["severity" := VInt 0]> (<["passed" := VBool true]> sample_low));
                    sample_passed_dirty])
    by (vm_compute; reflexivity).
  split; [exact H|]. exact (normalization_idempotent _ _ H).
Defined.

(** C3 (as amended). After normalization a failed record has an integer
    severity of at least 4; a record the loop rewrote has [passed = True],
    [severity = 0] and an empty explanation; a record that arrived with a
    true [passed] is left exactly as it arrived. *)
Theorem normalization_invariant (raw out : list (gmap string val)) :
  normalization raw = Ok out ->
  Forall2 (fun r o =>
    (forall p, o !! "passed" = Some p -> truthy p = false ->
       exists z, o !! "severity" = Some (VInt z) /\ 4 <= z) /\
    (o = r \/
     (o !! "passed" = Some (VBool true) /\ o !! "severity" = Some (VInt 0) /\
      o !! "explanation" = Some (VStr ""))) /\
    (forall p, r !! "passed" = Some p -> truthy p = true -> o = r)) raw out.
Proof.
  intros H%normalization_Ok.
  induction H as [|r o raw out Hr _ IH]; constructor; [|done].
  destruct (normalize_check_Ok _ _ Hr)
    as [(p & Hp & Ht & ->)|[(p & v & z & Hp & Ht & Hv & Hz & Hlt & ->)
                           |(p & v & z & Hp & Ht & Hv & Hz & Hge & ->)]].
  - split_and!; [|by left|done].
    intros p' Hp' Ht'. congruence.
  - split_and!.
    + intros p'. rewrite lookup_insert_ne, lookup_insert_ne, lookup_insert_eq by done.
      intros; simplify_eq.
    + right. by simplify_map_eq.
    + intros p' Hp' Ht'. congruence.
  - split_and!; [|by left|done].
    intros p' Hp' Ht'. exists z. split; [|done].
    rewrite Hv. f_equal. by apply as_int_ge_4.
Qed.

Lemma normalization_invariant_witness :
  Forall2 (fun r o =>
    (forall p, o !! "passed" = Some p -> truthy p = false ->
       exists z, o !! "severity" = Some (VInt z) /\ 4 <= z) /\
    (o = r \/
     (o !! "passed" = Some (VBool true) /\ o !! "severity" = Some (VInt 0) /\
      o !! "explanation" = Some (VStr ""))) /\
    (forall p, r !! "passed" = Some p -> truthy p = true -> o = r))
    [sample_low; sample_passed_dirty]
    [<["explanation" := VStr ""]>
       (<["severity" := VInt 0]> (<["passed" := VBool true]> sample_low));
     sample_passed_dirty].
Proof.
  apply (normalization_invariant [sample_low; sample_passed_dirty]).
  vm_compute. reflexivity.
Defined.

(** C3, as the specification states it, fails: a record that arrives with
    [passed = True], severity 7 and an explanation keeps both. *)
Lemma normalization_passed_not_reset :
  normalization [sample_passed_dirty] = Ok [sample_passed_dirty] /\
  sample_passed_dirty !! "passed" = Some (VBool true) /\
  sample_passed_dirty !! "severity" = Some (VInt 7) /\
  sample_passed_dirty !! "explanation" = Some (VStr "minor typo") /\
  ~ (forall raw out, normalization raw = Ok out ->
       Forall (fun o => o !! "passed" = Some (VBool true) ->
                 o !! "severity" = Some (VInt 0) /\
                 o !! "explanation" = Some (VStr "")) out).
Proof.
  split; [vm_compute; reflexivity|]. do 3 (split; [vm_compute; reflexivity|]).
  intros H. specialize (H [sample_passed_dirty] [sample_passed_dirty] eq_refl).
  apply Forall_inv in H. destruct H as [H _]; [vm_compute; reflexivity|].
  vm_compute in H. discriminate.
Qed.

(** ** Missing fields *)

Lemma normalize_check_lacking d :
  lacks_needed_field d ->
  normalize_check d = Raise (KeyError "passed") \/
  normalize_check d = Raise (KeyError "severity").
Proof.
  unfold normalize_check. intros [Hp|(p & Hp & Ht & Hs)].
  - left. by rewrite (getitem_missing _ _ Hp).
  - right. rewrite (getitem_lookup _ _ _ Hp). simpl. rewrite Ht.
    by rewrite (getitem_missing _ _ Hs).
Qed.

Lemma normalize_check_Raise d e :
  normalize_check d = Raise e ->
  e = KeyError "passed" \/ e = KeyError "severity" \/ e = TypeError.
Proof.
  unfold normalize_check, getitem, py_lt.
  destruct (d !! "passed") as [p|]; simpl; [|intros; simplify_eq; auto].
  destruct (truthy p); [done|].
  destruct (d !! "severity") as [v|]; simpl; [|intros; simplify_eq; auto].
  destruct (as_int v); simpl; [|intros; simplify_eq; auto].
  by destruct (_ <? _).
Qed.

Lemma normalization_Raise results :
  Exists lacks_needed_field results ->
  exists e, normalization results = Raise e /\
    (e = KeyError "passed" \/ e = KeyError "severity" \/ e = TypeError).
Proof.
  induction 1 as [d rest Hd|d rest _ IH]; simpl.
  - destruct (normalize_check_lacking d Hd) as [->| ->]; eauto.
  - destruct (normalize_check d) as [d'|e] eqn:Hd; simpl.
    + destruct IH as (e & -> & He). eauto.
    + exists e. split; [done|]. by eapply normalize_check_Raise.
Qed.

(** C4 (as amended). When some record lacks [passed], or is failed and lacks
    [severity], the normalization loop raises: [KeyError] for the missing
    field, or [TypeError] if an earlier failed record has a severity
    that is no number. The exception propagates out of the analysis branch
    of [main], so no score and no insight is computed. *)
Theorem normalization_missing_field
    (results : list (gmap string val)) (strengths : gmap string sval) :
  Exists lacks_needed_field results ->
  exists e, normalization results = Raise e /\
    main_analysis results strengths = Raise e /\
    (e = KeyError "passed" \/ e = KeyError "severity" \/ e = TypeError).
Proof.
  intros (e & He & Hcases)%normalization_Raise. exists e.
  split_and!; [done| |done]. unfold main_analysis. by rewrite He.
Qed.

Lemma normalization_missing_field_witness :
  exists e, normalization [sample_low; delete "passed" sample_low] = Raise e /\
    main_analysis [sample_low; delete "passed" sample_low] ∅ = Raise e /\
    (e = KeyError "passed" \/ e = KeyError "severity" \/ e = TypeError).
Proof.
  apply (normalization_missing_field [sample_low; delete "passed" sample_low] ∅).
  apply Exists_cons_tl, Exists_cons_hd. left. vm_compute. reflexivity.
Defined.

(** C4, as the specification states it, fails: a passed record without a
    [severity] key goes through normalization untouched, and the scores are
    computed from it. *)
Lemma missing_severity_accepted :
  sample_no_severity !! "severity" = None /\
  normalization [sample_no_severity] = Ok [sample_no_severity] /\
  exists a, main_analysis [sample_no_severity] ∅ = Ok a /\
    overall_score a = NInt 100 /\
    category_scores a !! "Content" = Some (NFloat (Float.of_int 100)) /\
    recruiter_insights a = [].
Proof.
  split_and!; [vm_compute; reflexivity..|].
  eexists. split; [vm_compute; reflexivity|].
  split_and!; vm_compute; reflexivity.
Qed.

(** ** Well-formed records *)

Lemma represents_to_dict r : represents (to_dict r) r.
Proof. unfold represents, to_dict. split_and!; by simplify_map_eq. Qed.

Lemma Forall2_represents_to_dict rs : Forall2 represents (to_dict <$> rs) rs.
Proof.
  induction rs; simpl; constructor; auto using represents_to_dict.
Qed.

Lemma is_significant_represents d r :
  represents d r -> is_significant d = Ok (Spec.significant r).
Proof.
  intros (_ & Hp & _ & Hs & _). unfold is_significant, Spec.significant.
  rewrite (getitem_lookup _ _ _ Hp). simpl.
  destruct (Spec.passed r); simpl; [done|].
  by rewrite (getitem_lookup _ _ _ Hs).
Qed.

Lemma filterM_represents (f : gmap string val -> res bool)
    (g : Spec.CheckResult -> bool) ds rs :
  (forall d r, represents d r -> f d = Ok (g r)) ->
  Forall2 represents ds rs ->
  exists ds', filterM f ds = Ok ds' /\
    Forall2 represents ds' (filter (fun r => g r = true) rs).
Proof.
  intros Hfg. induction 1 as [|d r ds rs Hd _ (ds' & IH & Hrep)]; simpl.
  - exists []. split; [done|constructor].
  - rewrite (Hfg _ _ Hd), IH. simpl. rewrite filter_cons.
    destruct (g r) eqn:Hg.
    + rewrite decide_True by done. exists (d :: ds'). split; [done|by constructor].
    + rewrite decide_False by done. by exists ds'.
Qed.

Lemma sum_severities_nil : Spec.sum_severities [] = 0.
Proof. reflexivity. Qed.

Lemma sum_severities_cons r rs :
  Spec.sum_severities (r :: rs) = Spec.severity r + Spec.sum_severities rs.
Proof. reflexivity. Qed.

Lemma sum_severity_represents ds rs acc :
  Forall2 represents ds rs ->
  sum_severity acc ds = Ok (acc + Spec.sum_severities rs).
Proof.
  intros H. revert acc.
  induction H as [|d r ds rs (_ & _ & _ & Hs & _) _ IH]; intros acc; simpl.
  - rewrite sum_severities_nil. f_equal. lia.
  - rewrite (getitem_lookup _ _ _ Hs). simpl. rewrite IH, sum_severities_cons.
    f_equal. lia.
Qed.

(** ** Score Calculator *)

Lemma overall_score_with_represents K ds rs :
  Forall2 represents ds rs ->
  overall_score_with K ds =
    Ok (match rs with [] => NInt 0 | _ => Spec.overall_score K rs end).
Proof.
  intros H.
  destruct (filterM_represents is_significant Spec.significant ds rs
              is_significant_represents H) as (sig & Hsig & Hrep).
  destruct H as [|d r ds rs Hd Hds]; [done|].
  unfold overall_score_with. rewrite Hsig. simpl.
  rewrite (sum_severity_represents _ _ 0 Hrep). simpl.
  reflexivity.
Qed.




(** ** Insight Generator *)

Lemma critical_insight_type l c :
  critical_insight l = Ok c -> Forall (fun i => type i = "critical") c.
Proof.
  unfold critical_insight. destruct l; intros H; [by simplify_eq|].
  apply bind_Ok in H as (its & _ & H). simplify_eq. by repeat constructor.
Qed.

Lemma warning_insight_type l c :
  warning_insight l = Ok c -> Forall (fun i => type i = "warning") c.
Proof.
  unfold warning_insight. destruct l; intros H; [by simplify_eq|].
  apply bind_Ok in H as (its & _ & H). simplify_eq. by repeat constructor.
Qed.

Lemma strength_insight_type st :
  Forall (fun i => type i = "strength") (strength_insight st).
Proof.
  unfold strength_insight. destruct (_ || _); by repeat constructor.
Qed.

Lemma interview_insight_type qs :
  Forall (fun i => type i = "interview") (interview_insight qs).
Proof. destruct qs; by repeat constructor. Qed.

(** The four groups, in their fixed order. *)
Lemma generate_recruiter_insights_Ok results strengths ins :
  generate_recruiter_insights results strengths = Ok ins ->
  exists sig critical warning questions,
    filterM is_significant results = Ok sig /\
    interview_questions sig = Ok questions /\
    Forall (fun i => type i = "critical") critical /\
    Forall (fun i => type i = "warning") warning /\
    ins = critical ++ warning ++ strength_insight strengths
            ++ interview_insight questions.
Proof.
  unfold generate_recruiter_insights. intros H.
  apply bind_Ok in H as (sig & Hsig & H).
  apply bind_Ok in H as (db & _ & H).
  apply bind_Ok in H as (critical & Hc%critical_insight_type & H).
  apply bind_Ok in H as (rf & _ & H).
  apply bind_Ok in H as (warning & Hw%warning_insight_type & H).
  apply bind_Ok in H as (qs & Hqs & H). simplify_eq.
  by exists sig, critical, warning, qs.
Qed.

Lemma filter_type_none (t t' : string) (l : list insight) :
  t <> t' -> Forall (fun i => type i = t) l ->
  filter (fun i => type i = t') l = [].
Proof.
  intros Hne. induction 1 as [|i l Hi _ IH]; [done|].
  rewrite filter_cons, decide_False by congruence. done.
Qed.

Lemma filter_type_all (t : string) (l : list insight) :
  Forall (fun i => type i = t) l -> filter (fun i => type i = t) l = l.
Proof.
  induction 1 as [|i l Hi _ IH]; [done|].
  rewrite filter_cons, decide_True by done. by rewrite IH.
Qed.

Lemma generate_strength_group results strengths ins :
  generate_recruiter_insights results strengths = Ok ins ->
  filter (fun i => type i = "strength") ins = strength_insight strengths.
Proof.
  intros (sig & c & w & qs & _ & _ & Hc & Hw & ->)%generate_recruiter_insights_Ok.
  rewrite !filter_app.
  rewrite (filter_type_none "critical" _ c), (filter_type_none "warning" _ w),
    (filter_type_none "interview" _ (interview_insight qs)),
    (filter_type_all "strength");
    auto using strength_insight_type, interview_insight_type; try done.
  by rewrite app_nil_r.
Qed.

Lemma generate_interview_group results strengths ins :
  generate_recruiter_insights results strengths = Ok ins ->
  exists sig questions,
    filterM is_significant results = Ok sig /\
    interview_questions sig = Ok questions /\
    filter (fun i => type i = "interview") ins = interview_insight questions.
Proof.
  intros (sig & c & w & qs & Hsig & Hqs & Hc & Hw & ->)%generate_recruiter_insights_Ok.
  exists sig, qs. split_and!; [done..|].
  rewrite !filter_app.
  rewrite (filter_type_none "critical" _ c), (filter_type_none "warning" _ w),
    (filter_type_none "strength" _ (strength_insight strengths)),
    (filter_type_all "interview");
    auto using strength_insight_type, interview_insight_type; done.
Qed.

Lemma format_wow_factor_standout w : format_wow_factor w = Spec.standout w.
Proof.
  destruct w as [s|l]; [done|].
  destruct l as [|x [|y l]]; reflexivity.
Qed.

(** C7. Whenever the insights are generated and [wow_factor] is non-empty,
    the strength group is the only group of its type and its last item is
    "Standout feature: " followed by: the string itself for a plain string,
    the single element for a list of length 1, and for a longer list all
    elements but the last joined by ", " followed by ", and " and the last
    element. *)
Theorem standout_feature_format
    (results : list (gmap string val)) (strengths : gmap string sval)
    (ins : list insight) (wow_factor : sval) :
  generate_recruiter_insights results strengths = Ok ins ->
  strengths !! "wow_factor" = Some wow_factor ->
  truthy_s wow_factor = true ->
  exists its,
    filter (fun i => type i = "strength") ins =
      [Insight "strength" "Resume Strengths"
         "Key strengths identified in this candidate's resume:" its] /\
    last its = Some ("Standout feature: " +:+ Spec.standout wow_factor) /\
    (forall s, wow_factor = SStr s -> Spec.standout wow_factor = s) /\
    (forall x, wow_factor = SList [x] -> Spec.standout wow_factor = x) /\
    (forall l, wow_factor = SList l -> (1 < length l)%nat ->
       Spec.standout wow_factor =
         String.concat ", " (removelast l) +:+ ", and " +:+ List.last l "").
Proof.
  intros Hgen Hw Ht. rewrite (generate_strength_group _ _ _ Hgen).
  unfold strength_insight. rewrite Hw. simpl. rewrite Ht, orb_true_r.
  eexists. split; [reflexivity|]. split_and!.
  - rewrite last_app. simpl. by rewrite format_wow_factor_standout.
  - by intros s ->.
  - by intros x ->.
  - intros l -> Hl. destruct l as [|x [|y l]]; simpl in Hl; [lia..|done].
Qed.

Lemma standout_feature_format_witness :
  exists its,
    filter (fun i => type i = "strength")
      [Insight "strength" "Resume Strengths"
         "Key strengths identified in this candidate's resume:"
         ["Top skills: Python, SQL";
          "Standout feature: Patent A, Patent B, and Patent C"]] =
      [Insight "strength" "Resume Strengths"
         "Key strengths identified in this candidate's resume:" its] /\
    last its = Some "Standout feature: Patent A, Patent B, and Patent C".
Proof.
  destruct (standout_feature_format [] scenario_C _
              (SList ["Patent A"; "Patent B"; "Patent C"]) eq_refl eq_refl eq_refl)
    as (its & H1 & H2 & _).
  exists its. split; [exact H1|exact H2].
Defined.

(** ** Empty input *)

(** C5. On the empty list the overall score is the int 0, each of the
    five category scores is the int 100, and the insights are the strength
    group alone, which is there only for a non-empty strengths record (and
    then only if [top_skills] or [wow_factor] is non-empty). *)
Theorem empty_results (strengths : gmap string sval) :
  calculate_overall_score [] = Ok (NInt 0) /\
  calculate_category_scores [] =
    Ok (list_to_map ((fun c => (c, NInt 100)) <$> category_names)) /\
  generate_recruiter_insights [] strengths = Ok (strength_insight strengths) /\
  Forall (fun i => type i = "strength") (strength_insight strengths) /\
  (strength_insight strengths = [] \/ strengths <> ∅).
Proof.
  split; [reflexivity|]. split; [vm_compute; reflexivity|].
  split; [|split].
  - unfold generate_recruiter_insights. simpl. by rewrite app_nil_r.
  - apply strength_insight_type.
  - destruct (decide (strengths = ∅)) as [->|]; [left; reflexivity|by right].
Qed.

(** ** Interview questions *)

Lemma is_deal_breaker_represents d r :
  represents d r -> is_deal_breaker d = Ok (8 <=? Spec.severity r).
Proof.
  intros (_ & _ & _ & Hs & _). unfold is_deal_breaker.
  by rewrite (getitem_lookup _ _ _ Hs).
Qed.

Lemma is_red_flag_represents d r :
  represents d r ->
  is_red_flag d = Ok ((4 <=? Spec.severity r) && (Spec.severity r <? 8)).
Proof.
  intros (_ & _ & _ & Hs & _). unfold is_red_flag.
  rewrite (getitem_lookup _ _ _ Hs). simpl. by destruct (4 <=? _).
Qed.

Lemma issue_items_represents ds rs :
  Forall2 represents ds rs -> exists its, issue_items ds = Ok its.
Proof.
  induction 1 as [|d r ds rs (Hn & _ & He & _) _ (its & IH)]; simpl; [by eexists|].
  unfold issue_item. rewrite (getitem_lookup _ _ _ Hn), (getitem_lookup _ _ _ He).
  simpl. rewrite IH. simpl. by eexists.
Qed.

Lemma critical_insight_represents ds rs :
  Forall2 represents ds rs -> exists c, critical_insight ds = Ok c.
Proof.
  intros H. unfold critical_insight. destruct ds; [by eexists|].
  destruct (issue_items_represents _ _ H) as (its & ->). by eexists.
Qed.

Lemma warning_insight_represents ds rs :
  Forall2 represents ds rs -> exists c, warning_insight ds = Ok c.
Proof.
  intros H. unfold warning_insight. destruct ds; [by eexists|].
  destruct (issue_items_represents _ _ H) as (its & ->). by eexists.
Qed.

Lemma interview_question_represents d r :
  represents d r ->
  interview_question d = Ok (option_list (question_of r)).
Proof.
  intros (Hn & _ & He & _). unfold interview_question, question_of.
  rewrite (getitem_lookup _ _ _ Hn). simpl.
  unfold Spec.interview_template.
  repeat (destruct (String.eqb _ _);
          [by rewrite (getitem_lookup _ _ _ He)|]).
  done.
Qed.

Lemma interview_questions_represents ds rs :
  Forall2 represents ds rs ->
  interview_questions ds = Ok (omap question_of rs).
Proof.
  induction 1 as [|d r ds rs Hd _ IH]; simpl; [done|].
  rewrite (interview_question_represents _ _ Hd), IH. simpl.
  by destruct (question_of r).
Qed.

Lemma omap_interview_item (rs : list Spec.CheckResult) :
  omap question_of (filter (fun r => Spec.significant r = true) rs)
  = omap Spec.interview_item rs.
Proof.
  induction rs as [|r rs IH]; [done|].
  rewrite filter_cons.
  change (omap Spec.interview_item (r :: rs))
    with (match Spec.interview_item r with
          | Some q => q :: omap Spec.interview_item rs
          | None => omap Spec.interview_item rs
          end).
  unfold Spec.interview_item at 1. fold (question_of r).
  destruct (Spec.significant r) eqn:Hs.
  - rewrite decide_True by done.
    change (omap question_of (r :: ?l))
      with (match question_of r with
            | Some q => q :: omap question_of l
            | None => omap question_of l
            end).
    by rewrite IH.
  - by rewrite decide_False by done.
Qed.

Lemma generate_recruiter_insights_represents ds rs strengths :
  Forall2 represents ds rs ->
  exists critical warning,
    generate_recruiter_insights ds strengths =
      Ok (critical ++ warning ++ strength_insight strengths
          ++ interview_insight (omap Spec.interview_item rs)).
Proof.
  intros H. unfold generate_recruiter_insights.
  destruct (filterM_represents is_significant Spec.significant ds rs
              is_significant_represents H) as (sig & -> & Hsig). simpl.
  destruct (filterM_represents is_deal_breaker _ _ _
              is_deal_breaker_represents Hsig) as (db & -> & Hdb). simpl.
  destruct (critical_insight_represents _ _ Hdb) as (c & ->). simpl.
  destruct (filterM_represents is_red_flag _ _ _
              is_red_flag_represents Hsig) as (rf & -> & Hrf). simpl.
  destruct (warning_insight_represents _ _ Hrf) as (w & ->). simpl.
  rewrite (interview_questions_represents _ _ Hsig). simpl.
  rewrite omap_interview_item. by exists c, w.
Qed.

Lemma length_omap_is_Some {A B} (f : A -> option B) (l : list A) :
  length (omap f l) = length (filter (fun x => is_Some (f x)) l).
Proof.
  induction l as [|x l IH]; [done|]. rewrite filter_cons.
  change (omap f (x :: l))
    with (match f x with Some y => y :: omap f l | None => omap f l end).
  destruct (f x) eqn:Hf.
  - rewrite decide_True by eauto. simpl. by f_equal.
  - rewrite decide_False by (by intros [? ?]). done.
Qed.

(** C6. On well-formed results the interview group holds, in input order,
    one question for each significant result (failed, severity at least 4)
    whose name is one of the three canonical names, built from that name's
    template and the result's explanation; a result with any other name adds
    nothing, and without any question there is no interview group. *)
Theorem interview_items_per_canonical_check
    (ds : list (gmap string val)) (rs : list Spec.CheckResult)
    (strengths : gmap string sval) :
  Forall2 represents ds rs ->
  exists ins,
    generate_recruiter_insights ds strengths = Ok ins /\
    filter (fun i => type i = "interview") ins =
      interview_insight (omap Spec.interview_item rs) /\
    flat_map items (filter (fun i => type i = "interview") ins) =
      omap Spec.interview_item rs /\
    length (omap Spec.interview_item rs) =
      length (filter (fun r => Spec.significant r = true /\
                        is_Some (Spec.interview_template (Spec.check_name r))) rs).
Proof.
  intros H.
  destruct (generate_recruiter_insights_represents ds rs strengths H)
    as (c & w & Hgen).
  eexists. split; [exact Hgen|].
  destruct (generate_interview_group _ _ _ Hgen) as (sig & qs & Hsig & Hqs & Hfil).
  destruct (filterM_represents is_significant Spec.significant ds rs
              is_significant_represents H) as (sig' & Hsig' & Hrep).
  assert (sig' = sig) as -> by congruence.
  rewrite (interview_questions_represents _ _ Hrep), omap_interview_item in Hqs.
  assert (qs = omap Spec.interview_item rs) as -> by congruence.
  split; [exact Hfil|]. split.
  - rewrite Hfil. destruct (omap Spec.interview_item rs); simpl; [done|].
    by rewrite app_nil_r.
  - rewrite length_omap_is_Some. f_equal. apply list_filter_iff.
    intros r. unfold Spec.interview_item.
    destruct (Spec.significant r); simpl.
    + rewrite <- !not_eq_None_Some.
      destruct (Spec.interview_template _); simpl; intuition congruence.
    + split; [by intros [? ?]|by intros [? _]].
Qed.

Lemma interview_items_per_canonical_check_witness :
  exists ins,
    generate_recruiter_insights (to_dict <$> scenario_E) ∅ = Ok ins /\
    filter (fun i => type i = "interview") ins =
      [Insight "interview" "Suggested Interview Questions"
         "Based on resume anomalies, consider asking:"
         ["Ask about the gap between positions: " +:+ dquote +:+
          "no job in 2019-2021" +:+ dquote]].
Proof.
  destruct (interview_items_per_canonical_check (to_dict <$> scenario_E) scenario_E ∅
              (Forall2_represents_to_dict scenario_E)) as (ins & H1 & H2 & _).
  exists ins. split; [exact H1|exact H2].
Defined.

(** ** Category Aggregator *)

Lemma demote_normalized r : Spec.normalized r -> Spec.demote r = r.
Proof.
  unfold Spec.normalized, Spec.demote, Spec.significant. intros H.
  destruct (Spec.passed r); simpl; [done|].
  specialize (H eq_refl). by rewrite (proj2 (Z.leb_le _ _) H).
Qed.

Lemma demote_normalized_list rs :
  Forall Spec.normalized rs -> Spec.demote <$> rs = rs.
Proof.
  induction 1 as [|r rs Hr _ IH]; [done|].
  by rewrite fmap_cons, (demote_normalized r Hr), IH.
Qed.

Lemma demote_category r : Spec.category (Spec.demote r) = Spec.category r.
Proof. unfold Spec.demote. by destruct (_ && _). Qed.

Lemma empty_categories_lookup C :
  empty_categories !! C =
    if bool_decide (C ∈ category_names) then Some [] else None.
Proof.
  unfold empty_categories, category_names. simpl.
  rewrite !lookup_insert, lookup_empty.
  repeat (case_decide;
          [subst; by rewrite bool_decide_true by (repeat constructor)|]).
  rewrite bool_decide_false; [done|]. intros Hin.
  repeat (apply elem_of_cons in Hin as [?|Hin]; [congruence|]).
  by apply elem_of_nil in Hin.
Qed.

Lemma grouped_empty : grouped empty_categories [].
Proof.
  intros C. rewrite empty_categories_lookup.
  case_bool_decide; [|done]. exists []. split; [done|constructor].
Qed.

Lemma represents_demote d r :
  represents d r ->
  negb (Spec.passed r) && negb (Spec.significant r) = true ->
  represents (<["passed" := VBool true]> d) (Spec.demote r).
Proof.
  intros (Hn & Hp & He & Hs & Hc) Hd. unfold Spec.demote. rewrite Hd.
  unfold represents. simpl. by simplify_map_eq.
Qed.

Lemma represents_filed d r : represents d r -> represents (filed d r) (Spec.demote r).
Proof.
  intros Hd. unfold filed. destruct (_ && _) eqn:Hdem.
  - by apply represents_demote.
  - unfold Spec.demote. by rewrite Hdem.
Qed.

Lemma group_check_eq d r categories :
  represents d r ->
  group_check d categories =
    Ok (match categories !! Spec.category r with
        | Some checks => <[Spec.category r := checks ++ [filed d r]]> categories
        | None => categories
        end).
Proof.
  intros Hd. pose proof (represents_filed d r Hd) as (_ & _ & _ & _ & Hc').
  rewrite demote_category in Hc'. revert Hc'.
  unfold group_check, filed.
  rewrite (is_significant_represents _ _ Hd). simpl.
  destruct Hd as (_ & Hp & _ & _ & Hc).
  destruct (Spec.significant r); simpl.
  - rewrite andb_false_r. intros Hc'. rewrite (getitem_lookup _ _ _ Hc'). simpl.
    by destruct (categories !! _).
  - rewrite (getitem_lookup _ _ _ Hp). simpl. rewrite andb_true_r.
    destruct (negb (Spec.passed r)); intros Hc';
      rewrite (getitem_lookup _ _ _ Hc'); simpl; by destruct (categories !! _).
Qed.

Lemma grouped_file d' r' categories rs0 :
  represents d' r' -> grouped categories rs0 ->
  grouped (match categories !! Spec.category r' with
           | Some checks => <[Spec.category r' := checks ++ [d']]> categories
           | None => categories
           end) (rs0 ++ [r']).
Proof.
  intros Hd Hg C. pose proof (Hg C) as HgC. pose proof (Hg (Spec.category r')) as Hgr.
  rewrite filter_app, filter_cons, filter_nil.
  destruct (decide (Spec.category r' = C)) as [<-|Hne].
  - case_bool_decide.
    + destruct HgC as (checks & HC & Hchecks). rewrite HC.
      exists (checks ++ [d']). split; [by rewrite lookup_insert_eq|].
      apply Forall2_app; [done|]. constructor; [done|constructor].
    + by rewrite HgC.
  - rewrite app_nil_r.
    assert (Hsame : (match categories !! Spec.category r' with
                     | Some checks => <[Spec.category r' := checks ++ [d']]> categories
                     | None => categories
                     end) !! C = categories !! C).
    { destruct (categories !! Spec.category r'); [|done].
      by rewrite lookup_insert_ne. }
    rewrite Hsame. exact HgC.
Qed.

Lemma group_checks_represents ds rs categories rs0 :
  Forall2 represents ds rs -> grouped categories rs0 ->
  exists categories',
    group_checks ds categories = Ok categories' /\
    grouped categories' (rs0 ++ (Spec.demote <$> rs)).
Proof.
  intros H. revert categories rs0.
  induction H as [|d r ds rs Hd _ IH]; intros categories rs0 Hg; simpl.
  - exists categories. by rewrite app_nil_r.
  - rewrite (group_check_eq _ _ _ Hd). simpl.
    pose proof (grouped_file _ _ _ _ (represents_filed d r Hd) Hg) as Hg'.
    rewrite demote_category in Hg'.
    destruct (IH _ _ Hg') as (categories' & -> & Hfin).
    exists categories'. split; [done|].
    by rewrite <- app_assoc in Hfin.
Qed.

Lemma count_passed_represents ds rs acc :
  Forall2 represents ds rs ->
  count_passed acc ds =
    Ok (acc + Z.of_nat (length (filter (fun r => Spec.passed r = true) rs))).
Proof.
  intros H. revert acc.
  induction H as [|d r ds rs (_ & Hp & _) _ IH]; intros acc; simpl.
  - f_equal. lia.
  - rewrite (getitem_lookup _ _ _ Hp). simpl. rewrite IH, filter_cons.
    case_decide as Hpass.
    + rewrite Hpass. f_equal. simpl length. lia.
    + apply not_true_is_false in Hpass. by rewrite Hpass.
Qed.

Lemma sum_failed_severity_represents ds rs acc :
  Forall2 represents ds rs ->
  sum_failed_severity acc ds =
    Ok (acc + Spec.sum_severities (filter (fun r => Spec.passed r = false) rs)).
Proof.
  intros H. revert acc.
  induction H as [|d r ds rs (_ & Hp & _ & Hs & _) _ IH]; intros acc; simpl.
  - rewrite filter_nil, sum_severities_nil. f_equal. lia.
  - rewrite (getitem_lookup _ _ _ Hp). simpl. rewrite filter_cons.
    case_decide as Hpass.
    + rewrite Hpass. rewrite (getitem_lookup _ _ _ Hs). simpl.
      rewrite IH, sum_severities_cons. f_equal. lia.
    + apply not_false_is_true in Hpass. rewrite Hpass. apply IH.
Qed.

Lemma score_category_represents ds rs :
  Forall2 represents ds rs ->
  score_category ds = Ok (Spec.checks_score rs).
Proof.
  intros H. pose proof (Forall2_length _ _ _ H) as Hlen.
  destruct H as [|d r ds rs Hd Hds]; [done|].
  assert (Hall : Forall2 represents (d :: ds) (r :: rs)) by by constructor.
  unfold score_category, Spec.checks_score.
  rewrite (count_passed_represents _ _ 0 Hall), bind_Ok_l.
  rewrite (sum_failed_severity_represents _ _ 0 Hall), bind_Ok_l.
  rewrite Hlen. rewrite !Z.add_0_l.
  assert (Hpos : (0 <? Z.of_nat (length (r :: rs))) = true)
    by (apply Z.ltb_lt; simpl length; lia).
  rewrite Hpos. unfold num_truediv.
  assert (Hnz : (Z.of_nat (length (r :: rs)) =? 0) = false)
    by (apply Z.eqb_neq; simpl length; lia).
  rewrite Hnz. reflexivity.
Qed.

Lemma score_categories_grouped names categories rs acc :
  grouped categories rs ->
  Forall (fun C => C ∈ category_names) names ->
  score_categories names categories acc =
    Ok (foldl (fun m C => <[C := Spec.category_score C rs]> m) acc names).
Proof.
  intros Hg Hnames. revert acc.
  induction Hnames as [|C names HC _ IH]; intros acc; simpl; [done|].
  specialize (Hg C). rewrite bool_decide_true in Hg by done.
  destruct Hg as (checks & -> & Hchecks). simpl.
  rewrite (score_category_represents _ _ Hchecks). simpl. apply IH.
Qed.

Lemma filter_category_fmap_demote C rs :
  Forall Spec.normalized rs ->
  filter (fun r => Spec.category r = C) (Spec.demote <$> rs)
  = filter (fun r => Spec.category r = C) rs.
Proof. intros H. by rewrite (demote_normalized_list rs H). Qed.

(** Well-formed results, normalized or not: the scores are those of the
    demoted results, one per fixed category. *)
Lemma calculate_category_scores_represents ds rs :
  Forall2 represents ds rs ->
  calculate_category_scores ds =
    Ok (foldl (fun m C => <[C := Spec.category_score C (Spec.demote <$> rs)]> m)
          ∅ category_names).
Proof.
  intros H. unfold calculate_category_scores.
  destruct (group_checks_represents ds rs empty_categories [] H grouped_empty)
    as (categories & -> & Hg). rewrite bind_Ok_l. rewrite app_nil_l in Hg.
  apply score_categories_grouped; [done|].
  apply Forall_forall. auto.
Qed.




(** ** The object store: [calculate_category_scores] leaves its input alone *)

Lemma is_significant_ref_run check h :
  is_significant_ref check h = (is_significant (deref h check), h).
Proof.
  unfold is_significant_ref, is_significant, mbind, M_bind, res_bind,
    getitem_ref, lift, mret, M_ret.
  destruct (getitem (deref h check) "passed") as [p|e]; [|done].
  destruct (truthy p); [done|].
  by destruct (getitem (deref h check) "severity").
Qed.

Lemma deref_insert_fresh h l d :
  deref (<[fresh (dom h) := d]> h) l = if decide (l = fresh (dom h)) then d else deref h l.
Proof.
  unfold deref. case_decide as Hl.
  - subst. by rewrite lookup_insert_eq.
  - by rewrite lookup_insert_ne.
Qed.

Lemma deref_fresh h : deref h (fresh (dom h)) = ∅.
Proof.
  unfold deref.
  by rewrite (proj1 (not_elem_of_dom h (fresh (dom h))) (is_fresh (dom h))).
Qed.

(** One round of the grouping loop, run on a store: the only store update
    is the allocation of the copy (demoted or not) at a fresh reference. *)
Lemma group_check_ref_run check cl h :
  let d := deref h check in
  let l' := fresh (dom h) in
  group_check_ref check cl h =
    match is_significant d with
    | Raise e => (Raise e, h)
    | Ok is_sig =>
        match (if is_sig : bool then Ok false
               else passed ← getitem d "passed"; Ok (negb (truthy passed))) with
        | Raise e => (Raise e, <[l' := d]> h)
        | Ok demote =>
            let d' := if demote : bool then <["passed" := VBool true]> d else d in
            let h' := <[l' := d']> h in
            match getitem d' "category" with
            | Raise e => (Raise e, h')
            | Ok category =>
                (Ok (match category with
                     | VStr c =>
                         match cl !! c with
                         | Some checks => <[c := checks ++ [l']]> cl
                         | None => cl
                         end
                     | _ => cl
                     end), h')
            end
        end
    end.
Proof.
  intros d l'. unfold group_check_ref, mbind, M_bind, mret, M_ret.
  rewrite is_significant_ref_run. fold d.
  destruct (is_significant d) as [is_sig|e]; [|done].
  unfold copy_ref, getitem_ref, setitem_ref. fold d l'.
  assert (Hd1 : deref (<[l' := d]> h) check = d).
  { unfold l'. rewrite deref_insert_fresh. by case_decide. }
  assert (Hl1 : deref (<[l' := d]> h) l' = d).
  { unfold l'. rewrite deref_insert_fresh. by rewrite decide_True. }
  destruct is_sig.
  - rewrite Hl1. by destruct (getitem d "category").
  - rewrite Hd1. unfold res_bind.
    destruct (getitem d "passed") as [p|e]; [|done].
    destruct (negb (truthy p)).
    + rewrite Hl1, insert_insert_eq. unfold deref at 1. rewrite lookup_insert_eq.
      simpl. by destruct (getitem _ "category").
    + rewrite Hl1. by destruct (getitem d "category").
Qed.

Lemma fresh_lookup_None (h : gmap nat (gmap string val)) : h !! fresh (dom h) = None.
Proof. apply not_elem_of_dom, is_fresh. Qed.

Lemma insert_fresh_subseteq (h0 h : gmap nat (gmap string val)) d :
  h0 ⊆ h -> h0 ⊆ <[fresh (dom h) := d]> h.
Proof.
  intros Hsub. apply insert_subseteq_r; [|done].
  eapply lookup_weaken_None; [apply fresh_lookup_None|done].
Qed.

Lemma group_check_ref_frame check cl h0 h :
  h0 ⊆ h -> h0 ⊆ (group_check_ref check cl h).2.
Proof.
  intros Hsub. rewrite group_check_ref_run. cbv zeta.
  destruct (is_significant _) as [is_sig|e]; [|done].
  destruct (if is_sig then _ else _) as [demote|e]; simpl;
    [|by apply insert_fresh_subseteq].
  destruct (getitem _ "category"); simpl; by apply insert_fresh_subseteq.
Qed.

Lemma group_checks_ref_frame ls cl h0 h :
  h0 ⊆ h -> h0 ⊆ (group_checks_ref ls cl h).2.
Proof.
  revert cl h. induction ls as [|l ls IH]; intros cl h Hsub; simpl; [done|].
  unfold mbind, M_bind.
  pose proof (group_check_ref_frame l cl h0 h Hsub) as Hstep.
  destruct (group_check_ref l cl h) as [[cl'|e] h1]; simpl in Hstep; [|done].
  by apply IH.
Qed.

Lemma score_categories_ref_heap names cl acc h :
  (score_categories_ref names cl acc h).2 = h.
Proof.
  revert acc. induction names as [|C names IH]; intros acc; simpl; [done|].
  unfold mbind, M_bind. destruct (score_category _); [|done]. apply IH.
Qed.

(** C10. [calculate_category_scores] run on a store whose references
    [category_results] are allocated: whether it returns or raises, every
    dictionary of the initial store, and so every input record with all its
    items, is in the final store unchanged; the copies live at fresh
    references. *)
Theorem calculate_category_scores_no_mutation
    (h : gmap nat (gmap string val)) (category_results : list nat) :
  Forall (fun l => is_Some (h !! l)) category_results ->
  h ⊆ (calculate_category_scores_ref category_results h).2 /\
  Forall (fun l => (calculate_category_scores_ref category_results h).2 !! l = h !! l)
    category_results /\
  Forall (fun l =>
    deref (calculate_category_scores_ref category_results h).2 l = deref h l)
    category_results.
Proof.
  intros Halloc.
  assert (Hsub : h ⊆ (calculate_category_scores_ref category_results h).2).
  { unfold calculate_category_scores_ref, mbind, M_bind.
    pose proof (group_checks_ref_frame category_results
                  (list_to_map ((fun c => (c, [])) <$> category_names)) h h
                  (reflexivity h)) as Hg.
    destruct (group_checks_ref _ _ h) as [[cl|e] h1]; simpl in Hg; [|done].
    by rewrite score_categories_ref_heap. }
  assert (Hsame : Forall (fun l =>
            (calculate_category_scores_ref category_results h).2 !! l = h !! l)
            category_results).
  { eapply Forall_impl; [exact Halloc|]. simpl. intros l [d Hd].
    rewrite Hd. by eapply lookup_weaken. }
  split_and!; [done..|].
  eapply Forall_impl; [exact Hsame|]. simpl. intros l Hl. unfold deref. by rewrite Hl.
Qed.

(** *** The store version computes what the list version computes *)

Lemma deref_weaken h h' l :
  h ⊆ h' -> is_Some (h !! l) -> deref h' l = deref h l.
Proof.
  intros Hsub [d Hd]. unfold deref. by rewrite Hd, (lookup_weaken _ _ _ _ Hd Hsub).
Qed.

Lemma fmap_deref_weaken h h' ls :
  h ⊆ h' -> Forall (fun l => is_Some (h !! l)) ls ->
  deref h' <$> ls = deref h <$> ls.
Proof.
  intros Hsub Hall. apply list_eq_Forall2, Forall2_fmap, Forall_Forall2_diag.
  eapply Forall_impl; [exact Hall|]. intros l Hl. by apply deref_weaken.
Qed.

Lemma is_Some_weaken (h h' : gmap nat (gmap string val)) l :
  h ⊆ h' -> is_Some (h !! l) -> is_Some (h' !! l).
Proof. intros Hsub [d Hd]. exists d. by eapply lookup_weaken. Qed.

Lemma cats_rel_weaken h h' cl cd :
  h ⊆ h' -> cats_rel h cl cd -> cats_rel h' cl cd.
Proof.
  intros Hsub Hrel c. destruct (Hrel c) as [Hcd Hall]. split.
  - rewrite Hcd. destruct (cl !! c) as [ls|] eqn:Hc; [|done]. simpl.
    f_equal. symmetry. apply fmap_deref_weaken; auto.
  - intros ls Hls. eapply Forall_impl; [by apply Hall|].
    intros l Hl. by eapply is_Some_weaken.
Qed.

Lemma cats_rel_file h cl cd c d' :
  cats_rel h cl cd ->
  cats_rel (<[fresh (dom h) := d']> h)
    (match cl !! c with
     | Some checks => <[c := checks ++ [fresh (dom h)]]> cl
     | None => cl
     end)
    (match cd !! c with
     | Some checks => <[c := checks ++ [d']]> cd
     | None => cd
     end).
Proof.
  intros Hrel.
  pose proof (insert_fresh_subseteq h h d' (reflexivity h)) as Hsub.
  pose proof (cats_rel_weaken _ _ _ _ Hsub Hrel) as Hrel'.
  destruct (Hrel' c) as [Hcd Hall]. rewrite Hcd.
  destruct (cl !! c) as [checks|] eqn:Hc; simpl; [|done].
  intros c'. destruct (decide (c = c')) as [<-|Hne].
  - rewrite !lookup_insert_eq. simpl. split.
    + rewrite fmap_app. simpl. do 2 f_equal.
      unfold deref. by rewrite lookup_insert_eq.
    + intros ls [= <-]. apply Forall_app. split; [by apply Hall|].
      constructor; [|constructor]. rewrite lookup_insert_eq. eauto.
  - rewrite !lookup_insert_ne by done. apply Hrel'.
Qed.

Lemma group_check_ref_pure l cl cd h :
  cats_rel h cl cd ->
  match (group_check_ref l cl h).1 with
  | Ok cl' =>
      exists cd', group_check (deref h l) cd = Ok cd' /\
        cats_rel (group_check_ref l cl h).2 cl' cd'
  | Raise e => group_check (deref h l) cd = Raise e
  end.
Proof.
  intros Hrel. rewrite group_check_ref_run. cbv zeta. unfold group_check.
  destruct (is_significant (deref h l)) as [is_sig|e]; [|done].
  rewrite bind_Ok_l.
  destruct (if is_sig then _ else _) as [demote|e]; [|done].
  rewrite bind_Ok_l. cbv zeta.
  destruct (getitem _ "category") as [category|e]; [|done].
  rewrite bind_Ok_l. simpl.
  pose proof (insert_fresh_subseteq h h
    (if demote then <["passed" := VBool true]> (deref h l) else deref h l)
    (reflexivity h)) as Hsub.
  destruct category as [b|z|c];
    try (eexists; split; [reflexivity|]; by eapply cats_rel_weaken).
  pose proof (cats_rel_file h cl cd c
    (if demote then <["passed" := VBool true]> (deref h l) else deref h l) Hrel)
    as Hfile.
  destruct (cd !! c) as [checks|]; eexists; (split; [reflexivity|exact Hfile]).
Qed.

Lemma group_checks_ref_cons l ls cl h :
  group_checks_ref (l :: ls) cl h =
    match group_check_ref l cl h with
    | (Ok cl', h') => group_checks_ref ls cl' h'
    | (Raise e, h') => (Raise e, h')
    end.
Proof. reflexivity. Qed.

Lemma group_checks_cons d ds cd :
  group_checks (d :: ds) cd = (cd' ← group_check d cd; group_checks ds cd').
Proof. reflexivity. Qed.

Lemma group_checks_ref_pure ls cl cd h :
  Forall (fun l => is_Some (h !! l)) ls ->
  cats_rel h cl cd ->
  match (group_checks_ref ls cl h).1 with
  | Ok cl' =>
      exists cd', group_checks (deref h <$> ls) cd = Ok cd' /\
        cats_rel (group_checks_ref ls cl h).2 cl' cd'
  | Raise e => group_checks (deref h <$> ls) cd = Raise e
  end.
Proof.
  intros Hall. revert cl cd h Hall.
  induction ls as [|l ls IH]; intros cl cd h Hall Hrel.
  - simpl. by exists cd.
  - apply Forall_cons in Hall as [Hl Hall].
    rewrite fmap_cons, group_checks_cons, group_checks_ref_cons.
    pose proof (group_check_ref_pure l cl cd h Hrel) as Hstep.
    pose proof (group_check_ref_frame l cl h h (reflexivity h)) as Hsub.
    destruct (group_check_ref l cl h) as [[cl1|e] h1]; simpl in Hstep, Hsub.
    + destruct Hstep as (cd1 & -> & Hrel1). rewrite bind_Ok_l.
      rewrite <- (fmap_deref_weaken h h1 ls Hsub Hall).
      apply IH; [|done].
      eapply Forall_impl; [exact Hall|]. intros l' Hl'. by eapply is_Some_weaken.
    + simpl. by rewrite Hstep.
Qed.

Lemma score_categories_ref_pure names cl cd acc h :
  cats_rel h cl cd ->
  (score_categories_ref names cl acc h).1 = score_categories names cd acc.
Proof.
  intros Hrel. revert acc.
  induction names as [|C names IH]; intros acc; simpl; [done|].
  unfold mbind at 1. unfold M_bind.
  assert (Heq : deref h <$> default [] (cl !! C) = default [] (cd !! C)).
  { destruct (Hrel C) as [-> _]. by destruct (cl !! C). }
  rewrite Heq. destruct (score_category _) as [score|e]; [|done].
  rewrite bind_Ok_l. apply IH.
Qed.

(** On allocated references the store version returns (or raises) exactly
    what [calculate_category_scores] does on the dictionaries they denote. *)
Lemma calculate_category_scores_ref_pure h ls :
  Forall (fun l => is_Some (h !! l)) ls ->
  (calculate_category_scores_ref ls h).1 = calculate_category_scores (deref h <$> ls).
Proof.
  intros Hall. unfold calculate_category_scores_ref, calculate_category_scores.
  unfold mbind at 1. unfold M_bind.
  assert (Hrel0 : cats_rel h (list_to_map ((fun c => (c, [])) <$> category_names))
                    empty_categories).
  { intros c. rewrite empty_categories_lookup. unfold category_names. simpl.
    rewrite !lookup_insert, lookup_empty. split.
    - repeat (case_decide;
              [subst; by rewrite bool_decide_true by (repeat constructor)|]).
      rewrite bool_decide_false; [done|]. intros Hin.
      repeat (apply elem_of_cons in Hin as [?|Hin]; [congruence|]).
      by apply elem_of_nil in Hin.
    - intros ls'. repeat (case_decide; [by intros [= <-]|]). done. }
  pose proof (group_checks_ref_pure ls _ _ h Hall Hrel0) as Hg.
  destruct (group_checks_ref ls _ h) as [[cl|e] h1]; simpl in Hg.
  - destruct Hg as (cd & -> & Hrel). rewrite bind_Ok_l.
    by apply score_categories_ref_pure.
  - by rewrite Hg.
Qed.

Lemma calculate_category_scores_no_mutation_witness :
  sample_heap ⊆ (calculate_category_scores_ref [0%nat; 1%nat] sample_heap).2 /\
  Forall (fun l =>
    (calculate_category_scores_ref [0%nat; 1%nat] sample_heap).2 !! l = sample_heap !! l)
    [0%nat; 1%nat] /\
  Forall (fun l =>
    deref (calculate_category_scores_ref [0%nat; 1%nat] sample_heap).2 l
    = deref sample_heap l) [0%nat; 1%nat].
Proof.
  apply (calculate_category_scores_no_mutation sample_heap [0%nat; 1%nat]).
  apply Forall_cons. split; [exists sample_low; vm_compute; reflexivity|].
  apply Forall_cons. split; [exists sample_passed_dirty; vm_compute; reflexivity|].
  apply Forall_nil_2.
Defined.

(** The run behind the witness: the demoted copy of the low-severity
    failure is a new object, the record itself still reads [passed = False];
    the normalization loop of [main], by contrast, overwrites it. *)
Lemma sample_heap_run :
  (calculate_category_scores_ref [0%nat; 1%nat] sample_heap).1
    = calculate_category_scores [sample_low; sample_passed_dirty] /\
  (calculate_category_scores_ref [0%nat; 1%nat] sample_heap).2 !! 0%nat
    = Some sample_low /\
  (calculate_category_scores_ref [0%nat; 1%nat] sample_heap).2 !! 2%nat
    = Some (<["passed" := VBool true]> sample_low) /\
  (normalization_ref [0%nat; 1%nat] sample_heap).2 !! 0%nat
    = Some (<["explanation" := VStr ""]>
              (<["severity" := VInt 0]> (<["passed" := VBool true]> sample_low))).
Proof. split_and!; vm_compute; reflexivity. Qed.

(** *** The in-place loop of [main] and the list it leaves behind *)

Lemma deref_insert_eq h l d : deref (<[l := d]> h) l = d.
Proof. unfold deref. by rewrite lookup_insert_eq. Qed.

(** One round of the loop on a store: the record at [l] becomes
    [normalize_check] of itself, every other object stays. *)
Lemma normalize_ref_run l h :
  match normalize_check (deref h l) with
  | Ok d' =>
      exists h1, normalize_ref l h = (Ok tt, h1) /\ deref h1 l = d' /\
        (forall l', l' <> l -> h1 !! l' = h !! l') /\
        (is_Some (h !! l) -> is_Some (h1 !! l))
  | Raise e => normalize_ref l h = (Raise e, h)
  end.
Proof.
  unfold normalize_ref, normalize_check, mbind, M_bind, res_bind, mret, M_ret,
    getitem_ref, setitem_ref, lift.
  destruct (getitem (deref h l) "passed") as [p|e]; [|done].
  destruct (truthy p).
  { exists h. split_and!; done. }
  destruct (getitem (deref h l) "severity") as [v|e]; [|done].
  destruct (py_lt v 4) as [[]|e]; [| |done].
  - eexists. split; [reflexivity|]. split_and!.
    + by rewrite !deref_insert_eq.
    + intros l' Hl'. by rewrite !lookup_insert_ne.
    + intros _. rewrite lookup_insert_eq. eauto.
  - exists h. split_and!; done.
Qed.

Lemma normalization_ref_frame ls h l :
  l ∉ ls -> (normalization_ref ls h).2 !! l = h !! l.
Proof.
  revert h. induction ls as [|l0 ls IH]; intros h Hl; [done|].
  apply not_elem_of_cons in Hl as [Hne Hl].
  simpl. unfold mbind, M_bind.
  pose proof (normalize_ref_run l0 h) as Hrun.
  destruct (normalize_check (deref h l0)) as [d'|e].
  - destruct Hrun as (h1 & -> & _ & Hother & _).
    rewrite IH by done. by apply Hother.
  - by rewrite Hrun.
Qed.

(** On distinct, allocated references the loop raises exactly when
    [normalization] does on the dictionaries they denote, and otherwise
    leaves behind the list that [normalization] returns. *)
Lemma normalization_ref_pure ls h :
  NoDup ls -> Forall (fun l => is_Some (h !! l)) ls ->
  match normalization (deref h <$> ls) with
  | Ok out =>
      (normalization_ref ls h).1 = Ok tt /\
      deref (normalization_ref ls h).2 <$> ls = out
  | Raise e => (normalization_ref ls h).1 = Raise e
  end.
Proof.
  intros Hnd. revert h. induction Hnd as [|l ls Hl Hnd IH]; intros h Hall; [done|].
  apply Forall_cons in Hall as [Hal Hall].
  rewrite fmap_cons. simpl normalization. simpl normalization_ref.
  unfold mbind at 3 4 5. unfold M_bind.
  pose proof (normalize_ref_run l h) as Hrun.
  destruct (normalize_check (deref h l)) as [d'|e]; [|by rewrite Hrun].
  destruct Hrun as (h1 & -> & Hd' & Hother & Hsome). rewrite bind_Ok_l.
  assert (Hrest : deref h1 <$> ls = deref h <$> ls).
  { apply list_fmap_ext. intros i l' Hl'. unfold deref. rewrite Hother; [done|].
    intros ->. apply Hl. by eapply list_elem_of_lookup_2. }
  assert (Hall1 : Forall (fun l => is_Some (h1 !! l)) ls).
  { apply Forall_forall. intros l' Hl'. rewrite Hother.
    - revert l' Hl'. by apply Forall_forall.
    - by intros ->. }
  specialize (IH h1 Hall1). rewrite Hrest in IH.
  destruct (normalization (deref h <$> ls)) as [out|e]; [|done].
  destruct IH as [Hok Hout]. rewrite bind_Ok_l. split; [done|].
  rewrite fmap_cons, Hout. f_equal.
  unfold deref. by rewrite normalization_ref_frame.
Qed.

(** ** Binary64 rounding: what the proofs need *)

Lemma digits2_pos_size m : digits2_pos m = Pos.size m.
Proof. induction m; simpl; congruence. Qed.

Lemma digits2_pos_bounds m :
  2 ^ (Z.pos (digits2_pos m) - 1) <= Z.pos m < 2 ^ Z.pos (digits2_pos m).
Proof.
  rewrite digits2_pos_size. split.
  - pose proof (Pos.size_le m) as H.
    apply Pos2Z.pos_le_pos in H. rewrite Pos2Z.inj_pow in H.
    replace (Z.pos (Pos.size m)) with (Z.pos (Pos.size m) - 1 + 1) in H by lia.
    rewrite Z.pow_add_r in H by lia. change (2 ^ 1) with 2 in H. lia.
  - pose proof (Pos.size_gt m) as H.
    apply Pos2Z.pos_lt_pos in H. by rewrite Pos2Z.inj_pow in H.
Qed.

Lemma shr_1_m mrs : 0 <= shr_m mrs -> shr_m (shr_1 mrs) = shr_m mrs / 2.
Proof.
  destruct mrs as [m r s]. cbn [shr_m]. intros Hm.
  destruct m as [|[p|p|]|p]; unfold shr_1; cbn [shr_m];
    first [lia | reflexivity
          | apply Z.div_unique with 1; lia | apply Z.div_unique with 0; lia].
Qed.

Lemma iter_pos_shr_1_m n mrs :
  0 <= shr_m mrs ->
  shr_m (SpecFloat.iter_pos shr_1 n mrs) = shr_m mrs / 2 ^ Z.pos n.
Proof.
  revert mrs. induction n as [n IH|n IH|]; intros mrs Hm; simpl SpecFloat.iter_pos.
  - assert (H1 : 0 <= shr_m (shr_1 mrs))
      by (rewrite shr_1_m by done; apply Z.div_pos; lia).
    assert (H2 : 0 <= shr_m (SpecFloat.iter_pos shr_1 n (shr_1 mrs)))
      by (rewrite IH by done; apply Z.div_pos; lia).
    rewrite IH, IH, shr_1_m by done.
    rewrite !Z.div_div by lia. f_equal.
    rewrite (Pos2Z.inj_xI n).
    replace (2 * Z.pos n + 1) with (Z.pos n + Z.pos n + 1) by lia.
    rewrite !Z.pow_add_r by lia. change (2 ^ 1) with 2. lia.
  - assert (H2 : 0 <= shr_m (SpecFloat.iter_pos shr_1 n mrs))
      by (rewrite IH by done; apply Z.div_pos; lia).
    rewrite IH, IH by done. rewrite Z.div_div by lia. f_equal.
    rewrite (Pos2Z.inj_xO n).
    replace (2 * Z.pos n) with (Z.pos n + Z.pos n) by lia.
    by rewrite Z.pow_add_r by lia.
  - rewrite shr_1_m by done. reflexivity.
Qed.

Lemma shr_m_record_of_loc m l : shr_m (shr_record_of_loc m l) = m.
Proof. by destruct l as [|[]]. Qed.

(** The first step of rounding a positive mantissa: drop the bits beyond
    the 53rd. *)
Lemma shr_fexp_pos m e l :
  -400 <= e ->
  let k := Z.max 0 (Z.pos (digits2_pos m) - 53) in
  snd (shr_fexp Float.prec Float.emax (Z.pos m) e l) = e + k /\
  shr_m (fst (shr_fexp Float.prec Float.emax (Z.pos m) e l)) = Z.pos m / 2 ^ k.
Proof.
  intros He k. unfold shr_fexp, fexp, SpecFloat.emin, Float.prec, Float.emax.
  simpl Zdigits2.
  replace (Z.max (Z.pos (digits2_pos m) + e - 53) (3 - 1024 - 53) - e)
    with (Z.pos (digits2_pos m) - 53) by lia.
  unfold shr. subst k.
  destruct (Z.pos (digits2_pos m) - 53) as [|n|n] eqn:Hn; simpl fst; simpl snd.
  - rewrite shr_m_record_of_loc. simpl. rewrite Z.div_1_r. split; [lia|done].
  - rewrite iter_pos_shr_1_m by (rewrite shr_m_record_of_loc; lia).
    rewrite shr_m_record_of_loc. rewrite Z.max_r by lia. split; [lia|done].
  - rewrite shr_m_record_of_loc. rewrite Z.max_l by lia. simpl.
    rewrite Z.div_1_r. split; [lia|done].
Qed.

Lemma round_nearest_even_bounds mx lx :
  mx <= round_nearest_even mx lx <= mx + 1.
Proof. destruct lx as [|[]]; simpl; try destruct (Z.even mx); lia. Qed.

(** The mantissa kept of [m]: its leading 53 bits, at least 1, and at least
    [2^52] as soon as a bit is dropped. *)
Lemma kept_bits_bounds m :
  let k := Z.max 0 (Z.pos (digits2_pos m) - 53) in
  1 <= Z.pos m / 2 ^ k < 2 ^ 53 /\
  (0 < k -> 2 ^ 52 <= Z.pos m / 2 ^ k).
Proof.
  intros k. pose proof (digits2_pos_bounds m) as [Hlo Hhi].
  destruct (Z.le_gt_cases (Z.pos (digits2_pos m)) 53) as [Hd|Hd].
  - assert (k = 0) as -> by lia. simpl. rewrite Z.div_1_r.
    split; [|lia]. split; [lia|].
    eapply Z.lt_le_trans; [exact Hhi|]. apply Z.pow_le_mono_r; lia.
  - assert (k = Z.pos (digits2_pos m) - 53) as Hk by lia.
    assert (Hpk : 0 < 2 ^ k) by (apply Z.pow_pos_nonneg; lia).
    assert (H52 : 2 ^ 52 <= Z.pos m / 2 ^ k).
    { apply Z.div_le_lower_bound; [done|].
      rewrite <- Z.pow_add_r by lia.
      replace (k + 52) with (Z.pos (digits2_pos m) - 1) by lia. done. }
    split; [|done]. split; [lia|].
    apply Z.div_lt_upper_bound; [done|].
    rewrite <- Z.pow_add_r by lia.
    replace (k + 53) with (Z.pos (digits2_pos m)) by lia. done.
Qed.

(** Rounding a positive mantissa to binary64: the result carries a mantissa
    [r / 2^k2] where [r] is the kept mantissa or its successor, and [k2]
    undoes a carry into the 54th bit. *)
Lemma binary_round_aux_pos s m e l :
  -400 <= e ->
  let k := Z.max 0 (Z.pos (digits2_pos m) - 53) in
  exists r : positive,
    let k2 := Z.max 0 (Z.pos (digits2_pos r) - 53) in
    Z.pos m / 2 ^ k <= Z.pos r <= Z.pos m / 2 ^ k + 1 /\
    binary_round_aux Float.prec Float.emax s (Z.pos m) e l =
      match Z.pos r / 2 ^ k2 with
      | Z0 => S754_zero s
      | Z.pos m' =>
          if e + k + k2 <=? Float.emax - Float.prec
          then S754_finite s m' (e + k + k2) else S754_infinity s
      | Z.neg _ => S754_nan
      end.
Proof.
  intros He k. unfold binary_round_aux.
  pose proof (shr_fexp_pos m e l He) as [He1 Hm1]. fold k in He1, Hm1.
  destruct (shr_fexp Float.prec Float.emax (Z.pos m) e l) as [mrs1 e1].
  simpl in He1, Hm1. subst e1.
  pose proof (round_nearest_even_bounds (shr_m mrs1) (loc_of_shr_record mrs1)) as Hr.
  pose proof (kept_bits_bounds m) as [[Hq1 _] _]. fold k in Hq1.
  destruct (round_nearest_even (shr_m mrs1) (loc_of_shr_record mrs1))
    as [|r|r] eqn:Hround; rewrite Hm1 in Hr; [lia| |lia].
  exists r. cbv zeta. set (k2 := Z.max 0 (Z.pos (digits2_pos r) - 53)).
  split; [lia|].
  assert (Hek : -400 <= e + k) by lia.
  pose proof (shr_fexp_pos r (e + k) loc_Exact Hek) as [He2 Hm2]. fold k2 in He2, Hm2.
  destruct (shr_fexp Float.prec Float.emax (Z.pos r) (e + k) loc_Exact) as [mrs2 e2].
  simpl in He2, Hm2. subst e2. rewrite Hm2. reflexivity.
Qed.

Lemma carry_exact r :
  Z.pos r <= 2 ^ 53 ->
  let k2 := Z.max 0 (Z.pos (digits2_pos r) - 53) in
  0 <= k2 /\ Z.pos r / 2 ^ k2 * 2 ^ k2 = Z.pos r /\ 0 < Z.pos r / 2 ^ k2.
Proof.
  intros Hr k2. pose proof (digits2_pos_bounds r) as [Hlo Hhi].
  destruct (Z.eq_dec (Z.pos r) (2 ^ 53)) as [Heq|Hne].
  - assert (Z.pos (digits2_pos r) = 54) as Hd.
    { assert (Z.pos (digits2_pos r) - 1 <= 53)
        by (apply (Z.pow_le_mono_r_iff 2); lia).
      assert (53 < Z.pos (digits2_pos r))
        by (apply (Z.pow_lt_mono_r_iff 2); lia).
      lia. }
    subst k2. rewrite Hd, Heq. by vm_compute.
  - assert (Z.pos (digits2_pos r) - 1 < 53)
      by (apply (Z.pow_lt_mono_r_iff 2); lia).
    assert (k2 = 0) as -> by lia. simpl. rewrite Z.div_1_r. lia.
Qed.

(** Rounding keeps the sign and never produces a NaN. *)
Lemma binary_round_aux_sign s m e l :
  -400 <= e ->
  match binary_round_aux Float.prec Float.emax s (Z.pos m) e l with
  | S754_zero s' | S754_infinity s' | S754_finite s' _ _ => s' = s
  | S754_nan => False
  end.
Proof.
  intros He. destruct (binary_round_aux_pos s m e l He) as (r & _ & ->).
  pose proof (Z.div_pos (Z.pos r) (2 ^ Z.max 0 (Z.pos (digits2_pos r) - 53))) as Hpos.
  destruct (Z.pos r / _) as [|m'|m']; [done| |].
  - by destruct (_ <=? _).
  - assert (0 < 2 ^ Z.max 0 (Z.pos (digits2_pos r) - 53))
      by (apply Z.pow_pos_nonneg; lia).
    lia.
Qed.

(** Rounding is monotone against an integer below [2^53]: what is at least
    [N] before rounding is at least [N] after it. *)
Lemma binary_round_aux_lower m e l N :
  -400 <= e -> 0 < N < 2 ^ 53 ->
  N * 2 ^ 400 <= Z.pos m * 2 ^ (e + 400) ->
  at_least (binary_round_aux Float.prec Float.emax false (Z.pos m) e l) N e.
Proof.
  intros He HN Hle.
  destruct (binary_round_aux_pos false m e l He) as (r & Hr & ->).
  pose proof (kept_bits_bounds m) as [[Hq1 Hq53] Hq52].
  set (k := Z.max 0 (Z.pos (digits2_pos m) - 53)) in *.
  set (q := Z.pos m / 2 ^ k) in *.
  assert (Hr53 : Z.pos r <= 2 ^ 53) by lia.
  pose proof (carry_exact r Hr53) as (Hk2 & Hexact & Hpos).
  set (k2 := Z.max 0 (Z.pos (digits2_pos r) - 53)) in *.
  destruct (Z.pos r / 2 ^ k2) as [|m'|m'] eqn:Hm'; [lia| |lia].
  destruct (_ <=? _); [|by left]. right. exists m', (e + k + k2).
  split; [done|]. split; [lia|].
  (* the value of the result is [r * 2^(e+k+400)] *)
  assert (Hk : 0 <= k) by lia.
  replace (e + k + k2 + 400) with (k2 + (e + k + 400)) by lia.
  rewrite Z.pow_add_r by lia. rewrite Z.mul_assoc, Hexact.
  assert (Hp : 0 < 2 ^ (e + k + 400)) by (apply Z.pow_pos_nonneg; lia).
  apply Z.le_trans with (q * 2 ^ (e + k + 400));
    [|apply Z.mul_le_mono_nonneg_r; lia].
  destruct (Z.eq_dec k 0) as [Hk0|Hk0].
  - (* nothing dropped *)
    assert (q = Z.pos m) as -> by (unfold q; rewrite Hk0; apply Z.div_1_r).
    by rewrite Hk0, Z.add_0_r.
  - specialize (Hq52 ltac:(lia)).
    destruct (Z.le_gt_cases (e + k) 0) as [Hek|Hek].
    + (* [N * 2^400] is a multiple of the unit in the last place *)
      assert (Hpk : 0 < 2 ^ k) by (apply Z.pow_pos_nonneg; lia).
      assert (Hpa : 0 < 2 ^ (e + 400)) by (apply Z.pow_pos_nonneg; lia).
      assert (Hq : N * 2 ^ (- (e + k)) <= q).
      { apply Z.div_le_lower_bound; [done|].
        apply (Z.mul_le_mono_pos_r _ _ (2 ^ (e + 400))); [done|].
        etransitivity; [|exact Hle].
        replace (2 ^ 400) with (2 ^ k * 2 ^ (- (e + k)) * 2 ^ (e + 400))
          by (rewrite <- !Z.pow_add_r by lia; f_equal; lia).
        apply Z.eq_le_incl. ring. }
      apply Z.le_trans with (N * 2 ^ (- (e + k)) * 2 ^ (e + k + 400));
        [|apply Z.mul_le_mono_nonneg_r; lia].
      replace (2 ^ 400) with (2 ^ (- (e + k)) * 2 ^ (e + k + 400))
        by (rewrite <- !Z.pow_add_r by lia; f_equal; lia).
      apply Z.eq_le_incl. ring.
    + (* the result is at least [2^52 * 2^401] *)
      apply Z.le_trans with (2 ^ 52 * 2 ^ (e + k + 400));
        [|apply Z.mul_le_mono_nonneg_r; lia].
      apply Z.le_trans with (2 ^ 53 * 2 ^ 400);
        [apply Z.mul_le_mono_nonneg_r; lia|].
      replace (e + k + 400) with (1 + 400 + (e + k - 1)) by lia.
      rewrite !Z.pow_add_r by lia.
      assert (0 < 2 ^ (e + k - 1)) by (apply Z.pow_pos_nonneg; lia).
      change (2 ^ 53) with (2 ^ 52 * 2 ^ 1).
      rewrite !Z.mul_assoc.
      assert (0 < 2 ^ 52 * 2 ^ 1 * 2 ^ 400) by (vm_compute; done).
      nia.
Qed.

Lemma shl_align_spec m e e' :
  snd (shl_align m e e') = Z.min e e' /\
  Z.pos (fst (shl_align m e e')) = Z.pos m * 2 ^ (e - Z.min e e').
Proof.
  unfold shl_align. destruct (e' - e) as [|d|d] eqn:Hd; simpl fst; simpl snd.
  - rewrite Z.min_l by lia. rewrite Z.sub_diag. split; lia.
  - rewrite Z.min_l by lia. rewrite Z.sub_diag. split; lia.
  - rewrite Z.min_r by lia. split; [done|].
    replace (e - e') with (Z.pos d) by lia.
    change (Pos.iter xO m d) with (shift_pos d m).
    rewrite shift_pos_correct. rewrite Z.mul_comm. reflexivity.
Qed.

Lemma binary_round_aligned s m e :
  -300 <= e ->
  exists m' e',
    binary_round Float.prec Float.emax s m e
      = binary_round_aux Float.prec Float.emax s (Z.pos m') e' loc_Exact /\
    e - 52 <= e' <= e /\
    Z.pos m' * 2 ^ (e' + 400) = Z.pos m * 2 ^ (e + 400).
Proof.
  intros He. unfold binary_round.
  set (e1 := fexp Float.prec Float.emax (Z.pos (digits2_pos m) + e)).
  pose proof (shl_align_spec m e e1) as [Hsnd Hfst].
  destruct (shl_align m e e1) as [m' e']. simpl in Hsnd, Hfst.
  exists m', e'. split; [done|].
  assert (He1 : e - 52 <= e1).
  { unfold e1, fexp, SpecFloat.emin, Float.prec, Float.emax.
    pose proof (Pos2Z.is_pos (digits2_pos m)). lia. }
  split; [lia|]. rewrite Hfst, Hsnd, <- Z.mul_assoc, <- Z.pow_add_r by lia.
  do 2 f_equal. lia.
Qed.

Lemma binary_round_lower m e N :
  -300 <= e -> 0 < N < 2 ^ 53 ->
  N * 2 ^ 400 <= Z.pos m * 2 ^ (e + 400) ->
  at_least (binary_round Float.prec Float.emax false m e) N (e - 52).
Proof.
  intros He HN Hle.
  destruct (binary_round_aligned false m e He) as (m' & e' & -> & He' & Hval).
  rewrite <- Hval in Hle.
  destruct (binary_round_aux_lower m' e' loc_Exact N ltac:(lia) HN Hle)
    as [->|(m2 & e2 & -> & He2 & Hle2)]; [by left|].
  right. exists m2, e2. split; [done|]. split; [lia|done].
Qed.

Lemma binary_round_sign s m e :
  -300 <= e ->
  match binary_round Float.prec Float.emax s m e with
  | S754_zero s' | S754_infinity s' | S754_finite s' _ _ => s' = s
  | S754_nan => False
  end.
Proof.
  intros He.
  destruct (binary_round_aligned s m e He) as (m' & e' & -> & He' & _).
  apply binary_round_aux_sign. lia.
Qed.

(** [float(T)] of an int [T >= N]. *)
Lemma of_int_lower T N :
  0 < N < 2 ^ 53 -> N <= T -> at_least (Float.of_int T) N (-52).
Proof.
  intros HN HT. unfold Float.of_int, binary_normalize.
  destruct T as [|p|p]; [lia| |lia].
  apply (binary_round_lower p 0 N); [lia|done|].
  apply Z.mul_le_mono_nonneg_r; [|done]. by vm_compute.
Qed.

(** The product with a positive constant [mK * 2^eK]: from [x >= Nx] and
    [Nx * mK * 2^eK >= N] follows [x * K >= N]. *)
Lemma mul_lower x mK eK Nx N e0 :
  at_least x Nx e0 ->
  -400 <= e0 + eK -> eK <= 0 -> 0 <= Nx ->
  0 < N < 2 ^ 53 ->
  N * 2 ^ (- eK) <= Nx * Z.pos mK ->
  at_least (Float.mul x (S754_finite false mK eK)) N (e0 + eK).
Proof.
  intros [->|(m & e & -> & He & Hle)] HeK HeK0 HNx HN HK; [by left|].
  unfold Float.mul, SFmul. simpl xorb.
  assert (Hlow : at_least
            (binary_round_aux Float.prec Float.emax false
               (Z.pos (m * mK)) (e + eK) loc_Exact) N (e + eK)).
  { apply binary_round_aux_lower; [lia|done|].
    assert (Hp : 0 < 2 ^ (- eK)) by (apply Z.pow_pos_nonneg; lia).
    apply (Z.mul_le_mono_pos_r _ _ (2 ^ (- eK))); [done|].
    rewrite Pos2Z.inj_mul.
    replace (Z.pos m * Z.pos mK * 2 ^ (e + eK + 400) * 2 ^ (- eK))
      with (Z.pos m * 2 ^ (e + 400) * Z.pos mK).
    2:{ replace (e + 400) with (e + eK + 400 + - eK) by lia.
        rewrite Z.pow_add_r by lia. ring. }
    apply Z.le_trans with (Nx * 2 ^ 400 * Z.pos mK);
      [|apply Z.mul_le_mono_nonneg_r; lia].
    replace (N * 2 ^ 400 * 2 ^ (- eK)) with (N * 2 ^ (- eK) * 2 ^ 400) by ring.
    replace (Nx * 2 ^ 400 * Z.pos mK) with (Nx * Z.pos mK * 2 ^ 400) by ring.
    apply Z.mul_le_mono_nonneg_r; [by vm_compute|done]. }
  destruct Hlow as [->|(m2 & e2 & -> & He2 & Hle2)]; [by left|].
  right. exists m2, e2. split; [done|]. split; [lia|done].
Qed.

(** [100 - p] for [p >= 100]. *)
Lemma sub_100_nonpos p e0 :
  at_least p 100 e0 -> -300 <= e0 ->
  nonpos (Float.sub (Float.of_int 100) p).
Proof.
  intros [->|(m & e & -> & He & Hle)] He0; [vm_compute; done|].
  change (Float.of_int 100) with (S754_finite false 7036874417766400 (-46)).
  unfold Float.sub, SFsub. cbv zeta.
  set (ez := Z.min (-46) e).
  pose proof (shl_align_spec 7036874417766400 (-46) ez) as [_ H1].
  pose proof (shl_align_spec m e ez) as [_ H2].
  unfold cond_Zopp. rewrite H1, H2.
  rewrite (Z.min_r (-46) ez), (Z.min_r e ez) by lia.
  set (D := 7036874417766400 * 2 ^ (-46 - ez) - Z.pos m * 2 ^ (e - ez)).
  assert (HD : D <= 0).
  { assert (Hp : 0 < 2 ^ (ez + 400)) by (apply Z.pow_pos_nonneg; lia).
    apply (Z.mul_le_mono_pos_r _ _ (2 ^ (ez + 400))); [done|].
    unfold D. rewrite Z.mul_sub_distr_r, <- !Z.mul_assoc, <- !Z.pow_add_r by lia.
    replace (-46 - ez + (ez + 400)) with 354 by lia.
    replace (e - ez + (ez + 400)) with (e + 400) by lia.
    change (7036874417766400 * 2 ^ 354) with (100 * 2 ^ 400). lia. }
  unfold binary_normalize. destruct D as [|d|d]; [done|lia|].
  pose proof (binary_round_sign true d ez ltac:(lia)) as Hs.
  destruct (binary_round _ _ true d ez) as [s|s| |s m' e'];
    simpl; by subst.
Qed.

(** A non-positive score is clamped to the int 0. *)
Lemma clamp_nonpos f :
  nonpos f -> py_max (NInt 0) (py_min (NInt 100) (NFloat f)) = NInt 0.
Proof.
  destruct f as [s|[]| |[] m e]; try done; intros _.
  - unfold py_min, py_max, num_lt, num_gt, num_compare, Float.compare_int.
    simpl cond_Zopp.
    assert (Hlt2 : forall z, 0 <= z -> (Z.neg m ?= z * 2 ^ (- e)) = Lt).
    { intros z Hz. apply Z.compare_lt_iff.
      destruct (Z.le_gt_cases 0 (- e)).
      - pose proof (Z.pow_nonneg 2 (- e) ltac:(lia)). nia.
      - rewrite Z.pow_neg_r by lia. lia. }
    destruct (0 <=? e) eqn:Hb.
    + apply Z.leb_le in Hb.
      assert (Hlt1 : forall z, 0 <= z -> (Z.neg m * 2 ^ e ?= z) = Lt).
      { intros z Hz. apply Z.compare_lt_iff.
        pose proof (Z.pow_pos_nonneg 2 e ltac:(lia) Hb). nia. }
      rewrite !Hlt1 by lia. simpl. apply Z.leb_le in Hb. rewrite Hb.
      change (- Z.pos m) with (Z.neg m). rewrite ?Hlt1 by lia. done.
    + rewrite !Hlt2 by lia. simpl. by rewrite Hb.
Qed.

(** From the total [T0] on, where [T0 * K >= 100], the score is 0. *)
Lemma score_of_total_large mK eK T0 T :
  -248 <= eK <= 0 -> 0 < T0 < 2 ^ 53 ->
  100 * 2 ^ (- eK) <= T0 * Z.pos mK ->
  T0 <= T ->
  Spec.score_of_total (S754_finite false mK eK) T = NInt 0.
Proof.
  intros HeK HT0 HK HT. unfold Spec.score_of_total, num_mul, num_sub, to_float.
  pose proof (of_int_lower T T0 HT0 HT) as Hx.
  pose proof (mul_lower _ mK eK T0 100 (-52) Hx ltac:(lia) ltac:(lia) ltac:(lia)
                ltac:(split; [lia|by vm_compute]) HK) as Hp.
  pose proof (sub_100_nonpos _ _ Hp ltac:(lia)) as Hs.
  by rewrite (clamp_nonpos _ Hs).
Qed.

Lemma all_pairs_le_lookup l i j x y :
  all_pairs_le l = true -> (i < j)%nat ->
  l !! i = Some x -> l !! j = Some y -> num_le y x = true.
Proof.
  revert i j. induction l as [|z l IH]; intros i j Hall Hij Hi Hj; [done|].
  simpl in Hall. apply andb_true_iff in Hall as [Hhd Htl].
  destruct i as [|i], j as [|j]; try lia; simpl in Hi, Hj.
  - simplify_eq. rewrite forallb_forall in Hhd. apply Hhd.
    apply list_elem_of_In. by eapply list_elem_of_lookup_2.
  - eapply (IH i j); [done|lia|done..].
Qed.

Lemma K077_eq : K077 = S754_finite false 6935543426150564 (-53).
Proof. by vm_compute. Qed.

Lemma score_table_sorted : all_pairs_le score_table = true.
Proof. by vm_compute. Qed.

Lemma score_table_lookup T :
  0 <= T <= 130 -> score_table !! Z.to_nat T = Some (Spec.score_of_total K077 T).
Proof.
  intros HT. unfold score_table. rewrite list_lookup_fmap.
  rewrite lookup_seqZ_lt by lia. simpl. f_equal. f_equal. lia.
Qed.

Lemma score_large T : 130 <= T -> Spec.score_of_total K077 T = NInt 0.
Proof.
  intros HT. rewrite K077_eq.
  apply (score_of_total_large _ _ 130); [lia|split; [lia|by vm_compute]| |done].
  by vm_compute.
Qed.

Lemma num_le_refl_table T : 0 <= T <= 130 ->
  num_le (Spec.score_of_total K077 T) (Spec.score_of_total K077 T) = true.
Proof.
  intros HT.
  assert (H : forallb (fun x => num_le x x) score_table = true) by by vm_compute.
  rewrite forallb_forall in H. apply H, list_elem_of_In.
  eapply list_elem_of_lookup_2. by apply score_table_lookup.
Qed.

(** The score never rises with the total severity. *)
Lemma score_of_total_mono T T' :
  0 <= T <= T' ->
  num_le (Spec.score_of_total K077 T') (Spec.score_of_total K077 T) = true.
Proof.
  intros [HT HTT'].
  destruct (Z.le_gt_cases 130 T) as [Hbig|Hsmall].
  { by rewrite !score_large by lia. }
  destruct (Z.eq_dec T T') as [<-|Hne]; [apply num_le_refl_table; lia|].
  destruct (Z.le_gt_cases 130 T') as [Hbig'|Hsmall'].
  - rewrite (score_large T') by done. rewrite <- (score_large 130) by lia.
    eapply (all_pairs_le_lookup score_table (Z.to_nat T) (Z.to_nat 130));
      [apply score_table_sorted|lia|apply score_table_lookup; lia..].
  - eapply (all_pairs_le_lookup score_table (Z.to_nat T) (Z.to_nat T'));
      [apply score_table_sorted|lia|apply score_table_lookup; lia..].
Qed.

(** ** Monotonicity of the overall score *)


Lemma filterM_Forall {A} (f : A -> res bool) (l l' : list A) :
  filterM f l = Ok l' -> Forall (fun x => f x = Ok true) l'.
Proof.
  revert l'. induction l as [|x l IH]; simpl; intros l' H.
  - simplify_eq. constructor.
  - apply bind_Ok in H as (b & Hb & H). apply bind_Ok in H as (r & Hr & H).
    simplify_eq. destruct b; [constructor|]; auto.
Qed.

Lemma is_significant_true d :
  is_significant d = Ok true ->
  exists v z, d !! "severity" = Some v /\ as_int v = Some z /\ 4 <= z.
Proof.
  unfold is_significant. intros H.
  apply bind_Ok in H as (p & _ & H). destruct (truthy p); [done|].
  apply bind_Ok in H as (v & Hv%getitem_Ok & H). unfold py_ge in H.
  destruct (as_int v) as [z|] eqn:Hz; [|done]. simplify_eq.
  exists v, z. split_and!; [done..|]. by apply Z.leb_le.
Qed.

(** The severities of significant issues add up to a non-negative int. *)
Lemma sum_severity_significant l :
  Forall (fun d => is_significant d = Ok true) l ->
  exists t, 0 <= t /\ forall acc, sum_severity acc l = Ok (acc + t).
Proof.
  induction 1 as [|d l (v & z & Hv & Hz & Hge)%is_significant_true _ (t & Ht & IH)].
  - exists 0. split; [done|]. intros acc. simpl. f_equal. lia.
  - exists (z + t). split; [lia|]. intros acc. simpl.
    rewrite (getitem_lookup _ _ _ Hv). simpl. unfold py_add. rewrite Hz. simpl.
    rewrite IH. f_equal. lia.
Qed.


Lemma overall_score_with_nonempty K results :
  results <> [] ->
  overall_score_with K results =
    (significant_issues ← filterM is_significant results;
     total_severity ← sum_severity 0 significant_issues;
     Ok (Spec.score_of_total K total_severity)).
Proof. by destruct results. Qed.



(** ** The critical and warning groups *)

Lemma issue_items_text ds rs :
  Forall2 represents ds rs -> issue_items ds = Ok (issue_text <$> rs).
Proof.
  induction 1 as [|d r ds rs (Hn & _ & He & _) _ IH]; simpl; [done|].
  unfold issue_item. rewrite (getitem_lookup _ _ _ Hn), (getitem_lookup _ _ _ He).
  simpl. by rewrite IH.
Qed.

Lemma filter_critical (rs : list Spec.CheckResult) :
  filter (fun r => (8 <=? Spec.severity r) = true)
    (filter (fun r => Spec.significant r = true) rs)
  = filter (fun r => is_critical r = true) rs.
Proof.
  rewrite list_filter_filter. apply list_filter_iff. intros r.
  unfold is_critical. rewrite andb_true_iff. tauto.
Qed.

Lemma filter_warning (rs : list Spec.CheckResult) :
  filter (fun r => ((4 <=? Spec.severity r) && (Spec.severity r <? 8)) = true)
    (filter (fun r => Spec.significant r = true) rs)
  = filter (fun r => is_warning r = true) rs.
Proof.
  rewrite list_filter_filter. apply list_filter_iff. intros r.
  unfold is_warning, Spec.significant. rewrite !andb_true_iff. tauto.
Qed.

Lemma critical_insight_group ds rs :
  Forall2 represents ds (filter (fun r => is_critical r = true) rs) ->
  critical_insight ds = Ok (critical_group rs).
Proof.
  intros H. unfold critical_insight, critical_group.
  pose proof (Forall2_length _ _ _ H) as Hlen.
  rewrite (issue_items_text _ _ H).
  destruct H as [|d r ds rs' Hd Hds]; [done|].
  rewrite bind_Ok_l. by rewrite Hlen.
Qed.

Lemma warning_insight_group ds rs :
  Forall2 represents ds (filter (fun r => is_warning r = true) rs) ->
  warning_insight ds = Ok (warning_group rs).
Proof.
  intros H. unfold warning_insight, warning_group.
  pose proof (Forall2_length _ _ _ H) as Hlen.
  rewrite (issue_items_text _ _ H).
  destruct H as [|d r ds rs' Hd Hds]; [done|].
  rewrite bind_Ok_l. by rewrite Hlen.
Qed.

(** On well-formed results the function returns the four groups, each
    determined by the results (and the strengths record). *)
Lemma generate_recruiter_insights_groups ds rs strengths :
  Forall2 represents ds rs ->
  generate_recruiter_insights ds strengths =
    Ok (critical_group rs ++ warning_group rs ++ strength_insight strengths
        ++ interview_insight (omap Spec.interview_item rs)).
Proof.
  intros H. unfold generate_recruiter_insights.
  destruct (filterM_represents is_significant Spec.significant ds rs
              is_significant_represents H) as (sig & -> & Hsig).
  rewrite bind_Ok_l.
  destruct (filterM_represents is_deal_breaker _ _ _
              is_deal_breaker_represents Hsig) as (db & -> & Hdb).
  rewrite bind_Ok_l. rewrite filter_critical in Hdb.
  rewrite (critical_insight_group _ _ Hdb), bind_Ok_l.
  destruct (filterM_represents is_red_flag _ _ _
              is_red_flag_represents Hsig) as (rf & -> & Hrf).
  rewrite bind_Ok_l. rewrite filter_warning in Hrf.
  rewrite (warning_insight_group _ _ Hrf), bind_Ok_l.
  rewrite (interview_questions_represents _ _ Hsig), bind_Ok_l.
  by rewrite omap_interview_item.
Qed.

Lemma critical_group_type rs : Forall (fun i => type i = "critical") (critical_group rs).
Proof. unfold critical_group. destruct (filter _ rs); by repeat constructor. Qed.

Lemma warning_group_type rs : Forall (fun i => type i = "warning") (warning_group rs).
Proof. unfold warning_group. destruct (filter _ rs); by repeat constructor. Qed.

Lemma groups_critical rs strengths qs :
  filter (fun i => type i = "critical")
    (critical_group rs ++ warning_group rs ++ strength_insight strengths
     ++ interview_insight qs)
  = critical_group rs.
Proof.
  rewrite !filter_app.
  rewrite (filter_type_all "critical" (critical_group rs)),
    (filter_type_none "warning" "critical" (warning_group rs)),
    (filter_type_none "strength" "critical" (strength_insight strengths)),
    (filter_type_none "interview" "critical" (interview_insight qs));
    auto using critical_group_type, warning_group_type, strength_insight_type,
      interview_insight_type; try done.
  by rewrite !app_nil_r.
Qed.

Lemma groups_warning rs strengths qs :
  filter (fun i => type i = "warning")
    (critical_group rs ++ warning_group rs ++ strength_insight strengths
     ++ interview_insight qs)
  = warning_group rs.
Proof.
  rewrite !filter_app.
  rewrite (filter_type_none "critical" "warning" (critical_group rs)),
    (filter_type_all "warning" (warning_group rs)),
    (filter_type_none "strength" "warning" (strength_insight strengths)),
    (filter_type_none "interview" "warning" (interview_insight qs));
    auto using critical_group_type, warning_group_type, strength_insight_type,
      interview_insight_type; try done.
  by rewrite !app_nil_r.
Qed.

Lemma is_critical_iff r :
  is_critical r = true <-> Spec.passed r = false /\ 8 <= Spec.severity r.
Proof.
  unfold is_critical, Spec.significant.
  rewrite !andb_true_iff, negb_true_iff, !Z.leb_le. intuition lia.
Qed.

Lemma is_warning_iff r :
  is_warning r = true <-> Spec.passed r = false /\ 4 <= Spec.severity r < 8.
Proof.
  unfold is_warning, Spec.significant.
  rewrite !andb_true_iff, negb_true_iff, Z.leb_le, Z.ltb_lt. intuition lia.
Qed.

Lemma critical_group_items rs :
  flat_map items (critical_group rs)
  = issue_text <$> filter (fun r => Spec.passed r = false /\ 8 <= Spec.severity r) rs.
Proof.
  unfold critical_group.
  rewrite (list_filter_iff _ _ rs is_critical_iff).
  destruct (filter (fun r => Spec.passed r = false /\ 8 <= Spec.severity r) rs);
    simpl; [done|]. by rewrite app_nil_r.
Qed.

Lemma warning_group_items rs :
  flat_map items (warning_group rs)
  = issue_text <$> filter (fun r => Spec.passed r = false /\
                             4 <= Spec.severity r < 8) rs.
Proof.
  unfold warning_group.
  rewrite (list_filter_iff _ _ rs is_warning_iff).
  destruct (filter (fun r => Spec.passed r = false /\
                      4 <= Spec.severity r < 8) rs);
    simpl; [done|]. by rewrite app_nil_r.
Qed.

(** X1. On well-formed results the only critical group is the one of the
    failed results of severity 8 or more: absent without any, and otherwise
    titled "Critical Issues Detected", counting them in its description and
    listing "name: explanation" for each in input order. *)
Theorem critical_group_of_deal_breakers
    (ds : list (gmap string val)) (rs : list Spec.CheckResult)
    (strengths : gmap string sval) :
  Forall2 represents ds rs ->
  exists ins,
    generate_recruiter_insights ds strengths = Ok ins /\
    filter (fun i => type i = "critical") ins = critical_group rs /\
    flat_map items (filter (fun i => type i = "critical") ins) =
      issue_text <$> filter (fun r => Spec.passed r = false /\ 8 <= Spec.severity r) rs.
Proof.
  intros H. eexists. split; [by apply generate_recruiter_insights_groups|].
  rewrite groups_critical. split; [done|apply critical_group_items].
Qed.

Lemma critical_group_of_deal_breakers_witness :
  exists ins,
    generate_recruiter_insights (to_dict <$> scenario_A) scenario_C = Ok ins /\
    flat_map items (filter (fun i => type i = "critical") ins)
    = ["Missing contact information: no email"].
Proof.
  destruct (critical_group_of_deal_breakers (to_dict <$> scenario_A) scenario_A
              scenario_C (Forall2_represents_to_dict scenario_A))
    as (ins & Hins & _ & Hitems).
  exists ins. split; [exact Hins|]. rewrite Hitems. vm_compute. reflexivity.
Defined.

(** X2. Likewise the only warning group is the one of the failed results
    with severity from 4 to 7, titled "Potential Red Flags". *)
Theorem warning_group_of_red_flags
    (ds : list (gmap string val)) (rs : list Spec.CheckResult)
    (strengths : gmap string sval) :
  Forall2 represents ds rs ->
  exists ins,
    generate_recruiter_insights ds strengths = Ok ins /\
    filter (fun i => type i = "warning") ins = warning_group rs /\
    flat_map items (filter (fun i => type i = "warning") ins) =
      issue_text <$> filter (fun r => Spec.passed r = false /\
                               4 <= Spec.severity r < 8) rs.
Proof.
  intros H. eexists. split; [by apply generate_recruiter_insights_groups|].
  rewrite groups_warning. split; [done|apply warning_group_items].
Qed.

Lemma warning_group_of_red_flags_witness :
  exists ins,
    generate_recruiter_insights (to_dict <$> scenario_A) scenario_C = Ok ins /\
    flat_map items (filter (fun i => type i = "warning") ins)
    = ["Frequent job switching: four jobs in a year"].
Proof.
  destruct (warning_group_of_red_flags (to_dict <$> scenario_A) scenario_A
              scenario_C (Forall2_represents_to_dict scenario_A))
    as (ins & Hins & _ & Hitems).
  exists ins. split; [exact Hins|]. rewrite Hitems. vm_compute. reflexivity.
Defined.

(** ** More on the insight groups *)

(** X3. On well-formed results every significant issue is listed exactly
    once, in the critical or in the warning group, and nothing else is
    listed there. *)
Theorem significant_issues_listed_once
    (ds : list (gmap string val)) (rs : list Spec.CheckResult)
    (strengths : gmap string sval) :
  Forall2 represents ds rs ->
  exists ins,
    generate_recruiter_insights ds strengths = Ok ins /\
    flat_map items (filter (fun i => type i = "critical") ins)
      ++ flat_map items (filter (fun i => type i = "warning") ins)
    ≡ₚ issue_text <$> filter (fun r => Spec.significant r = true) rs.
Proof.
  intros H. eexists. split; [by apply generate_recruiter_insights_groups|].
  rewrite groups_critical, groups_warning.
  rewrite critical_group_items, warning_group_items, <- fmap_app.
  apply fmap_Permutation.
  rewrite <- (list_filter_iff _ _ rs is_critical_iff).
  rewrite <- (list_filter_iff _ _ rs is_warning_iff).
  rewrite <- filter_critical.
  assert (Hwf : filter (fun r => is_warning r = true) rs
                = filter (fun r => ~ (8 <=? Spec.severity r) = true)
                    (filter (fun r => Spec.significant r = true) rs)).
  { rewrite list_filter_filter. apply list_filter_iff. intros r.
    unfold is_warning. rewrite andb_true_iff, Z.ltb_lt, Z.leb_le.
    intuition lia. }
  rewrite Hwf. apply filter_app_complement.
Qed.

Lemma significant_issues_listed_once_witness :
  exists ins,
    generate_recruiter_insights (to_dict <$> scenario_A) scenario_C = Ok ins /\
    flat_map items (filter (fun i => type i = "critical") ins)
      ++ flat_map items (filter (fun i => type i = "warning") ins)
    ≡ₚ ["Missing contact information: no email";
        "Frequent job switching: four jobs in a year"].
Proof.
  exact (significant_issues_listed_once (to_dict <$> scenario_A) scenario_A
           scenario_C (Forall2_represents_to_dict scenario_A)).
Defined.

Lemma generate_recruiter_insights_inv results strengths ins :
  generate_recruiter_insights results strengths = Ok ins ->
  exists sig db rf c w qs,
    filterM is_significant results = Ok sig /\
    filterM is_deal_breaker sig = Ok db /\ critical_insight db = Ok c /\
    filterM is_red_flag sig = Ok rf /\ warning_insight rf = Ok w /\
    interview_questions sig = Ok qs /\
    ins = c ++ w ++ strength_insight strengths ++ interview_insight qs.
Proof.
  unfold generate_recruiter_insights. intros H.
  apply bind_Ok in H as (sig & Hsig & H).
  apply bind_Ok in H as (db & Hdb & H).
  apply bind_Ok in H as (c & Hc & H).
  apply bind_Ok in H as (rf & Hrf & H).
  apply bind_Ok in H as (w & Hw & H).
  apply bind_Ok in H as (qs & Hqs & H). simplify_eq.
  by exists sig, db, rf, c, w, qs.
Qed.

Lemma critical_insight_shape l c :
  critical_insight l = Ok c ->
  (l = [] /\ c = []) \/ (l <> [] /\ exists i, c = [i] /\ type i = "critical").
Proof.
  unfold critical_insight. destruct l; intros H; [left; by simplify_eq|].
  apply bind_Ok in H as (its & _ & H). simplify_eq. right. split; [done|].
  by eexists.
Qed.

Lemma warning_insight_shape l c :
  warning_insight l = Ok c ->
  (l = [] /\ c = []) \/ (l <> [] /\ exists i, c = [i] /\ type i = "warning").
Proof.
  unfold warning_insight. destruct l; intros H; [left; by simplify_eq|].
  apply bind_Ok in H as (its & _ & H). simplify_eq. right. split; [done|].
  by eexists.
Qed.

(** X4. Whatever the input, when the function returns, its groups come in
    the order critical, warning, strength, interview, each at most once. *)
Theorem insight_groups_order
    (results : list (gmap string val)) (strengths : gmap string sval)
    (ins : list insight) :
  generate_recruiter_insights results strengths = Ok ins ->
  sublist (type <$> ins) ["critical"; "warning"; "strength"; "interview"].
Proof.
  intros (sig & db & rf & c & w & qs & _ & _ & Hc & _ & Hw & _ & ->)
    %generate_recruiter_insights_inv.
  rewrite !fmap_app.
  assert (Hs : type <$> strength_insight strengths = []
               \/ type <$> strength_insight strengths = ["strength"]).
  { unfold strength_insight. destruct (_ || _); auto. }
  assert (Hi : type <$> interview_insight qs = []
               \/ type <$> interview_insight qs = ["interview"]).
  { destruct qs; auto. }
  destruct (critical_insight_shape _ _ Hc) as [[_ ->]|(_ & i & -> & Hi1)];
    destruct (warning_insight_shape _ _ Hw) as [[_ ->]|(_ & j & -> & Hj1)];
    destruct Hs as [-> | ->]; destruct Hi as [-> | ->]; simpl;
    rewrite ?Hi1, ?Hj1;
    repeat first [apply sublist_nil | apply sublist_skip | apply sublist_cons].
Qed.

Lemma insight_groups_order_witness :
  exists ins,
    generate_recruiter_insights (to_dict <$> scenario_E) scenario_C = Ok ins /\
    type <$> ins = ["warning"; "strength"; "interview"] /\
    sublist (type <$> ins) ["critical"; "warning"; "strength"; "interview"].
Proof.
  eexists. split; [vm_compute; reflexivity|]. split; [reflexivity|].
  apply (insight_groups_order (to_dict <$> scenario_E) scenario_C).
  vm_compute. reflexivity.
Defined.

Lemma filterM_nil_Forall {A} (f : A -> res bool) (l : list A) :
  filterM f l = Ok [] -> Forall (fun x => f x = Ok false) l.
Proof.
  induction l as [|x l IH]; simpl; intros H; [constructor|].
  apply bind_Ok in H as (b & Hb & H). apply bind_Ok in H as (r & Hr & H).
  destruct b; simplify_eq. constructor; auto.
Qed.

Lemma significant_critical_or_warning d :
  is_significant d = Ok true ->
  is_deal_breaker d = Ok true \/ is_red_flag d = Ok true.
Proof.
  intros (v & z & Hv & Hz & Hge)%is_significant_true.
  unfold is_deal_breaker, is_red_flag, py_ge, py_lt.
  rewrite (getitem_lookup _ _ _ Hv). simpl. rewrite Hz. simpl.
  destruct (Z.leb_spec 8 z); [by left|right].
  rewrite (proj2 (Z.leb_le 4 z) Hge). f_equal. by apply Z.ltb_lt.
Qed.

(** X5. Whatever the input, when the function returns, the list of insights
    is empty (and [main] reports "No significant issues found") exactly when
    no result is significant and neither [top_skills] nor [wow_factor] is
    non-empty. *)
Theorem no_insights_iff
    (results : list (gmap string val)) (strengths : gmap string sval)
    (ins : list insight) :
  generate_recruiter_insights results strengths = Ok ins ->
  (ins = [] <->
   filterM is_significant results = Ok [] /\ strength_insight strengths = []).
Proof.
  intros (sig & db & rf & c & w & qs & Hsig & Hdb & Hc & Hrf & Hw & Hqs & ->)
    %generate_recruiter_insights_inv.
  split.
  - intros Hnil.
    apply app_eq_nil in Hnil as [-> Hnil].
    apply app_eq_nil in Hnil as [-> Hnil].
    apply app_eq_nil in Hnil as [Hst _]. split; [|done].
    destruct (critical_insight_shape _ _ Hc) as [[-> _]|(_ & i & Hi & _)]; [|done].
    destruct (warning_insight_shape _ _ Hw) as [[-> _]|(_ & i & Hi & _)]; [|done].
    destruct sig as [|d sig]; [done|]. exfalso.
    apply filterM_Forall, Forall_inv in Hsig.
    apply filterM_nil_Forall, Forall_inv in Hdb.
    apply filterM_nil_Forall, Forall_inv in Hrf.
    destruct (significant_critical_or_warning d Hsig); congruence.
  - intros [Hsig' Hst]. rewrite Hsig in Hsig'. injection Hsig' as ->.
    rewrite Hst. cbn in Hdb, Hrf, Hqs. injection Hdb as <-. injection Hrf as <-.
    injection Hqs as <-. cbn in Hc, Hw. injection Hc as <-. by injection Hw as <-.
Qed.

Lemma no_insights_iff_witness :
  generate_recruiter_insights [sample_low; sample_passed_dirty] ∅ = Ok [] /\
  filterM is_significant [sample_low; sample_passed_dirty] = Ok [] /\
  strength_insight ∅ = [].
Proof.
  assert (H : generate_recruiter_insights [sample_low; sample_passed_dirty] ∅
              = Ok []) by (vm_compute; reflexivity).
  split; [exact H|].
  exact (proj1 (no_insights_iff [sample_low; sample_passed_dirty] ∅ [] H) eq_refl).
Defined.


(** ** The scores and insights before and after the normalization loop *)

Lemma normalize_check_significant d d' :
  normalize_check d = Ok d' ->
  exists b, is_significant d = Ok b /\ is_significant d' = Ok b /\
            (b = true -> d' = d).
Proof.
  intros H. destruct (normalize_check_Ok _ _ H)
    as [(p & Hp & Ht & ->)|[(p & v & z & Hp & Ht & Hv & Hz & Hlt & ->)
                           |(p & v & z & Hp & Ht & Hv & Hz & Hge & ->)]].
  - exists false. unfold is_significant.
    rewrite (getitem_lookup _ _ _ Hp). simpl. by rewrite Ht.
  - exists false. unfold is_significant.
    rewrite (getitem_lookup _ _ _ Hp). simpl. rewrite Ht.
    rewrite (getitem_lookup _ _ _ Hv). simpl. unfold py_ge. rewrite Hz.
    rewrite (getitem_lookup _ "passed" (VBool true)) by by simplify_map_eq.
    simpl. split_and!; [|done..]. f_equal. apply Z.leb_gt. lia.
  - exists true. unfold is_significant.
    rewrite (getitem_lookup _ _ _ Hp). simpl. rewrite Ht.
    rewrite (getitem_lookup _ _ _ Hv). simpl. unfold py_ge. rewrite Hz.
    split_and!; [|  |done]; f_equal; by apply Z.leb_le.
Qed.

Lemma normalization_significant raw out :
  normalization raw = Ok out ->
  exists sig, filterM is_significant raw = Ok sig /\
              filterM is_significant out = Ok sig.
Proof.
  intros H%normalization_Ok.
  induction H as [|r o raw out Hr _ (sig & Hraw & Hout)]; [by exists []|].
  destruct (normalize_check_significant _ _ Hr) as (b & Hb & Hb' & Heq).
  exists (if b then r :: sig else sig). simpl.
  rewrite Hb, Hb', Hraw, Hout. simpl. destruct b; [|done].
  by rewrite Heq.
Qed.

(** X6. The normalization loop of [main] does not change the overall score:
    on the list the loop leaves behind, [calculate_overall_score] gives what
    it gives on the list as the model returned it (the same score, or the
    same exception). *)
Theorem overall_score_after_normalization
    (raw out : list (gmap string val)) :
  normalization raw = Ok out ->
  calculate_overall_score out = calculate_overall_score raw.
Proof.
  intros H. destruct (normalization_significant _ _ H) as (sig & Hraw & Hout).
  apply normalization_Ok in H.
  unfold calculate_overall_score.
  destruct H as [|r o raw out _ _]; [done|].
  rewrite !overall_score_with_nonempty by done. by rewrite Hraw, Hout.
Qed.

Lemma overall_score_after_normalization_witness :
  exists out,
    normalization (to_dict <$> scenario_A) = Ok out /\
    calculate_overall_score out
    = calculate_overall_score (to_dict <$> scenario_A).
Proof.
  destruct (normalization_represents (to_dict <$> scenario_A) scenario_A
              (Forall2_represents_to_dict scenario_A)) as (out & H & _).
  exists out. split; [exact H|].
  exact (overall_score_after_normalization _ _ H).
Defined.

(** X7. Nor does the loop change the insights: [generate_recruiter_insights]
    gives the same groups, with the same items, on the raw and on the
    normalized list. *)
Theorem insights_after_normalization
    (raw out : list (gmap string val)) (strengths : gmap string sval) :
  normalization raw = Ok out ->
  generate_recruiter_insights out strengths
  = generate_recruiter_insights raw strengths.
Proof.
  intros H. destruct (normalization_significant _ _ H) as (sig & Hraw & Hout).
  unfold generate_recruiter_insights. by rewrite Hraw, Hout.
Qed.

Lemma insights_after_normalization_witness :
  exists out,
    normalization (to_dict <$> scenario_A) = Ok out /\
    generate_recruiter_insights out scenario_C
    = generate_recruiter_insights (to_dict <$> scenario_A) scenario_C.
Proof.
  destruct (normalization_represents (to_dict <$> scenario_A) scenario_A
              (Forall2_represents_to_dict scenario_A)) as (out & H & _).
  exists out. split; [exact H|].
  exact (insights_after_normalization _ _ scenario_C H).
Defined.

(** ** The range of the overall score *)

Lemma score_table_range :
  forallb (fun v => num_le (NInt 0) v && num_le v (NInt 100)) score_table = true.
Proof. by vm_compute. Qed.

Lemma score_of_total_range T :
  0 <= T ->
  num_le (NInt 0) (Spec.score_of_total K077 T) = true /\
  num_le (Spec.score_of_total K077 T) (NInt 100) = true.
Proof.
  intros HT. destruct (Z.le_gt_cases 130 T) as [Hbig|Hsmall].
  { by rewrite score_large. }
  pose proof score_table_range as H. rewrite forallb_forall in H.
  apply andb_true_iff, H, list_elem_of_In.
  eapply list_elem_of_lookup_2. apply score_table_lookup. lia.
Qed.

Lemma calculate_overall_score_Ok results v :
  calculate_overall_score results = Ok v ->
  (results = [] /\ v = NInt 0) \/
  (results <> [] /\ exists sig T,
     filterM is_significant results = Ok sig /\ sum_severity 0 sig = Ok T /\
     0 <= T /\ (sig = [] -> T = 0) /\ (sig <> [] -> 4 <= T) /\
     v = Spec.score_of_total K077 T).
Proof.
  unfold calculate_overall_score. intros H. destruct results as [|d results].
  { left. simpl in H. by simplify_eq. }
  right. split; [done|]. rewrite overall_score_with_nonempty in H by done.
  fold K077 in H.
  apply bind_Ok in H as (sig & Hsig & H).
  apply bind_Ok in H as (T & HT & H). simplify_eq.
  exists sig, T. split_and!; try done.
  - destruct (sum_severity_significant sig (filterM_Forall _ _ _ Hsig))
      as (t & Ht & Hs). rewrite Hs in HT. simplify_eq. lia.
  - intros ->. simpl in HT. by simplify_eq.
  - intros Hne. destruct sig as [|d' sig]; [done|].
    pose proof (filterM_Forall _ _ _ Hsig) as Hall.
    apply Forall_cons in Hall as [(v & z & Hv & Hz & Hge)%is_significant_true Hall].
    destruct (sum_severity_significant sig Hall) as (t & Ht & Hs).
    simpl in HT. rewrite (getitem_lookup _ _ _ Hv) in HT. simpl in HT.
    unfold py_add in HT. rewrite Hz in HT. simpl in HT. rewrite Hs in HT.
    simplify_eq. lia.
Qed.

(** X8. Whatever the input, a score that [calculate_overall_score] returns
    lies between 0 and 100. *)
Theorem overall_score_range (results : list (gmap string val)) (v : num) :
  calculate_overall_score results = Ok v ->
  num_le (NInt 0) v = true /\ num_le v (NInt 100) = true.
Proof.
  intros [[_ ->]|(_ & sig & T & _ & _ & HT & _ & _ & ->)]%calculate_overall_score_Ok.
  - done.
  - by apply score_of_total_range.
Qed.

Lemma overall_score_range_witness :
  calculate_overall_score (to_dict <$> scenario_A) = Ok (tenths 892) /\
  num_le (NInt 0) (tenths 892) = true /\ num_le (tenths 892) (NInt 100) = true.
Proof.
  assert (H : calculate_overall_score (to_dict <$> scenario_A) = Ok (tenths 892))
    by (vm_compute; reflexivity).
  split; [exact H|]. exact (overall_score_range _ _ H).
Defined.

(** X9. On a non-empty list the score is the int 100 exactly when no result
    is significant; a single significant issue already brings it down to
    96.9 or less. *)
Theorem overall_score_perfect_iff (results : list (gmap string val)) (v : num) :
  results <> [] ->
  calculate_overall_score results = Ok v ->
  (filterM is_significant results = Ok [] /\ v = NInt 100) \/
  (exists sig, filterM is_significant results = Ok sig /\ sig <> [] /\
     num_le v (tenths 969) = true).
Proof.
  intros Hne [[-> _]|(_ & sig & T & Hsig & _ & HT & H0 & H4 & ->)]
    %calculate_overall_score_Ok; [done|].
  destruct sig as [|d sig].
  - left. split; [done|]. rewrite H0 by done. by vm_compute.
  - right. eexists. split_and!; [done..|].
    assert (H969 : Spec.score_of_total K077 4 = tenths 969) by by vm_compute.
    rewrite <- H969. apply score_of_total_mono. split; [lia|]. by apply H4.
Qed.

Lemma overall_score_perfect_iff_witness :
  calculate_overall_score [sample_low; sample_passed_dirty] = Ok (NInt 100) /\
  filterM is_significant [sample_low; sample_passed_dirty] = Ok [].
Proof.
  assert (H : calculate_overall_score [sample_low; sample_passed_dirty]
              = Ok (NInt 100)) by (vm_compute; reflexivity).
  split; [exact H|].
  destruct (overall_score_perfect_iff [sample_low; sample_passed_dirty] (NInt 100)
              ltac:(discriminate) H) as [[Hnil _]|(sig & _ & _ & Hle)].
  - exact Hnil.
  - vm_compute in Hle. discriminate Hle.
Defined.

(** X10. The score bottoms out at a total severity of 130: on a non-empty
    list the score is 0 exactly when the severities of the significant
    issues add up to 130 or more. *)
Theorem overall_score_zero_iff
    (results sig : list (gmap string val)) (T : Z) (v : num) :
  results <> [] ->
  filterM is_significant results = Ok sig ->
  sum_severity 0 sig = Ok T ->
  calculate_overall_score results = Ok v ->
  (v = NInt 0 <-> 130 <= T).
Proof.
  intros Hne Hsig HT Hv.
  assert (v = Spec.score_of_total K077 T) as ->.
  { unfold calculate_overall_score in Hv.
    rewrite overall_score_with_nonempty in Hv by done.
    rewrite Hsig, bind_Ok_l, HT, bind_Ok_l in Hv. by simplify_eq. }
  split; [|apply score_large].
  - intros Hz. destruct (Z.le_gt_cases 130 T) as [|Hlt]; [done|exfalso].
    destruct (sum_severity_significant sig (filterM_Forall _ _ _ Hsig))
      as (t & Ht & Hs). rewrite Hs in HT. simplify_eq.
    assert (H : forallb (fun x => match x with NInt 0 => false | _ => true end)
                  (take 130 score_table) = true) by by vm_compute.
    rewrite forallb_forall in H.
    assert (Hin : In (NInt 0) (take 130 score_table)); [|by specialize (H _ Hin)].
    apply list_elem_of_In. eapply (list_elem_of_lookup_2 _ (Z.to_nat (0 + t))).
    rewrite lookup_take_lt by lia. rewrite score_table_lookup by lia.
    by rewrite Hz.
Qed.

Lemma overall_score_zero_iff_witness :
  exists v,
    calculate_overall_score (to_dict <$> scenario_A) = Ok v /\
    (v = NInt 0 <-> 130 <= 14).
Proof.
  pose proof (overall_score_with_represents (Float.literal 77 100)
                (to_dict <$> scenario_A) scenario_A
                (Forall2_represents_to_dict scenario_A)) as H.
  destruct (filterM_represents is_significant Spec.significant
              (to_dict <$> scenario_A) scenario_A is_significant_represents
              (Forall2_represents_to_dict scenario_A)) as (sig & Hsig & Hrep).
  eexists. split; [exact H|].
  apply (overall_score_zero_iff (to_dict <$> scenario_A) sig 14);
    [discriminate|exact Hsig| |exact H].
  exact (sum_severity_represents sig _ 0 Hrep).
Defined.

(** ** More on the category scores *)

Lemma score_alike_filter C l l' :
  Forall2 score_alike l l' ->
  Forall2 score_alike (filter (fun r => Spec.category r = C) l)
                      (filter (fun r => Spec.category r = C) l').
Proof.
  induction 1 as [|r r' l l' (Hc & Hp & Hs) _ IH]; [constructor|].
  rewrite !filter_cons. rewrite <- Hc.
  destruct (decide (Spec.category r = C)); [constructor|]; done.
Qed.

Lemma score_alike_passed l l' :
  Forall2 score_alike l l' ->
  length (filter (fun r => Spec.passed r = true) l)
  = length (filter (fun r => Spec.passed r = true) l').
Proof.
  induction 1 as [|r r' l l' (Hc & Hp & Hs) _ IH]; [done|].
  rewrite !filter_cons. rewrite <- Hp.
  destruct (decide (Spec.passed r = true)); simpl; by rewrite IH.
Qed.

Lemma score_alike_failed l l' :
  Forall2 score_alike l l' ->
  Spec.sum_severities (filter (fun r => Spec.passed r = false) l)
  = Spec.sum_severities (filter (fun r => Spec.passed r = false) l').
Proof.
  induction 1 as [|r r' l l' (Hc & Hp & Hs) _ IH]; [done|].
  rewrite !filter_cons. rewrite <- Hp.
  destruct (decide (Spec.passed r = false)); [|done].
  rewrite !sum_severities_cons, IH, Hs; done.
Qed.

Lemma checks_score_alike l l' :
  Forall2 score_alike l l' -> Spec.checks_score l = Spec.checks_score l'.
Proof.
  intros H. pose proof (Forall2_length _ _ _ H) as Hlen.
  pose proof (score_alike_passed _ _ H) as Hp.
  pose proof (score_alike_failed _ _ H) as Hf.
  unfold Spec.checks_score. destruct H; [done|].
  cbv zeta. by rewrite Hlen, Hp, Hf.
Qed.

Lemma category_score_alike C l l' :
  Forall2 score_alike l l' -> Spec.category_score C l = Spec.category_score C l'.
Proof. intros H. by apply checks_score_alike, score_alike_filter. Qed.

Lemma demote_normalize_alike r :
  score_alike (Spec.demote (Spec.normalize r)) (Spec.demote r).
Proof.
  unfold score_alike, Spec.demote, Spec.normalize, Spec.significant.
  destruct r as [n [] e s c]; simpl; [done|].
  destruct (Z.ltb_spec s 4) as [Hlt|Hge]; simpl.
  - rewrite (proj2 (Z.leb_gt _ _) Hlt). simpl. done.
  - rewrite (proj2 (Z.leb_le _ _) Hge). simpl. done.
Qed.

Lemma category_scores_ext (f g : string -> num) :
  (forall C, f C = g C) ->
  foldl (fun (m : gmap string num) C => <[C := f C]> m) ∅ category_names
  = foldl (fun m C => <[C := g C]> m) ∅ category_names.
Proof. intros H. unfold category_names. simpl. by rewrite !H. Qed.

(** X11. On well-formed results the normalization loop does not change the
    category scores either: [calculate_category_scores] returns the same
    five scores on the raw and on the normalized list. *)
Theorem category_scores_after_normalization
    (ds : list (gmap string val)) (rs : list Spec.CheckResult) :
  Forall2 represents ds rs ->
  exists out,
    normalization ds = Ok out /\
    calculate_category_scores out = calculate_category_scores ds.
Proof.
  intros H. destruct (normalization_represents ds rs H) as (out & Hout & Hrep & _).
  exists out. split; [done|].
  rewrite (calculate_category_scores_represents _ _ H).
  rewrite (calculate_category_scores_represents _ _ Hrep). f_equal.
  apply category_scores_ext. intros C. apply category_score_alike.
  clear. induction rs as [|r rs IH]; [constructor|].
  simpl. constructor; [apply demote_normalize_alike|done].
Qed.

Lemma category_scores_after_normalization_witness :
  exists out,
    normalization (to_dict <$> scenario_A) = Ok out /\
    calculate_category_scores out
    = calculate_category_scores (to_dict <$> scenario_A).
Proof.
  exact (category_scores_after_normalization (to_dict <$> scenario_A) scenario_A
           (Forall2_represents_to_dict scenario_A)).
Defined.

(** X12. A well-formed result whose category is none of the five names is
    dropped by the grouping loop: the scores are those of the list without
    it. *)
Theorem unknown_category_ignored
    (ds1 ds2 : list (gmap string val)) (d : gmap string val)
    (rs1 rs2 : list Spec.CheckResult) (r : Spec.CheckResult) :
  Forall2 represents ds1 rs1 -> represents d r -> Forall2 represents ds2 rs2 ->
  Spec.category r ∉ category_names ->
  calculate_category_scores (ds1 ++ d :: ds2)
  = calculate_category_scores (ds1 ++ ds2).
Proof.
  intros H1 Hd H2 Hc.
  rewrite (calculate_category_scores_represents _ (rs1 ++ r :: rs2))
    by (apply Forall2_app; [done|]; by constructor).
  rewrite (calculate_category_scores_represents _ (rs1 ++ rs2))
    by by apply Forall2_app.
  f_equal.
  assert (Hscore : forall C, C ∈ category_names ->
            Spec.category_score C (Spec.demote <$> rs1 ++ rs2)
            = Spec.category_score C (Spec.demote <$> rs1 ++ r :: rs2)).
  { intros C HC. unfold Spec.category_score.
    rewrite !fmap_app, fmap_cons, !filter_app, filter_cons.
    rewrite demote_category.
    destruct (decide (Spec.category r = C)) as [<-|]; done. }
  unfold category_names in *. simpl.
  rewrite !Hscore; [done|repeat constructor..].
Qed.

Lemma unknown_category_ignored_witness :
  calculate_category_scores (to_dict <$> scenario_A)
  = calculate_category_scores (to_dict <$> take 3 scenario_A).
Proof.
  change (calculate_category_scores
            ((to_dict <$> take 3 scenario_A)
             ++ to_dict (Spec.Build_CheckResult "Frequent job switching" false
                           "four jobs in a year" 5 "Stability") :: [])
          = calculate_category_scores ((to_dict <$> take 3 scenario_A) ++ [])).
  apply (unknown_category_ignored (to_dict <$> take 3 scenario_A) []
           (to_dict (Spec.Build_CheckResult "Frequent job switching" false
                       "four jobs in a year" 5 "Stability"))
           (take 3 scenario_A) []
           (Spec.Build_CheckResult "Frequent job switching" false
              "four jobs in a year" 5 "Stability")).
  - apply Forall2_represents_to_dict.
  - apply represents_to_dict.
  - constructor.
  - simpl. unfold category_names. intros Hin.
    repeat (apply elem_of_cons in Hin as [Hin|Hin]; [discriminate Hin|]).
    by apply elem_of_nil in Hin.
Defined.

Lemma score_categories_dom names categories acc scores :
  score_categories names categories acc = Ok scores ->
  dom scores = dom acc ∪ list_to_set names.
Proof.
  revert acc. induction names as [|C names IH]; intros acc H; simpl in *.
  - simplify_eq. by rewrite (right_id_L ∅ (∪)).
  - apply bind_Ok in H as (s & _ & H). apply IH in H. rewrite H.
    rewrite dom_insert_L. apply set_eq. intros x.
    rewrite !elem_of_union. tauto.
Qed.

(** X13. Whatever the input, when [calculate_category_scores] returns, its
    dictionary has the five category names as keys, no more and no less. *)
Theorem category_scores_keys
    (category_results : list (gmap string val)) (scores : gmap string num) :
  calculate_category_scores category_results = Ok scores ->
  dom scores = list_to_set category_names.
Proof.
  unfold calculate_category_scores. intros H.
  apply bind_Ok in H as (categories & _ & H).
  apply score_categories_dom in H. rewrite H.
  by rewrite dom_empty_L, (left_id_L ∅ (∪)).
Qed.

Lemma category_scores_keys_witness :
  exists scores,
    calculate_category_scores (to_dict <$> scenario_A) = Ok scores /\
    dom scores = list_to_set category_names.
Proof.
  eexists. split.
  - apply calculate_category_scores_represents, Forall2_represents_to_dict.
  - apply (category_scores_keys (to_dict <$> scenario_A)).
    apply calculate_category_scores_represents, Forall2_represents_to_dict.
Defined.

(** ** The severity chart *)

Lemma count_check_represents d r a b c p :
  represents d r ->
  count_check d [("Critical", a); ("Moderate", b); ("Minor", c); ("No Issues", p)]
  = Ok [("Critical", if negb (Spec.passed r) && (8 <=? Spec.severity r)
                     then a + 1 else a);
        ("Moderate", if negb (Spec.passed r) && (4 <=? Spec.severity r)
                        && (Spec.severity r <? 8) then b + 1 else b);
        ("Minor", if negb (Spec.passed r) && (1 <=? Spec.severity r)
                     && (Spec.severity r <? 4) then c + 1 else c);
        ("No Issues", if Spec.passed r then p + 1 else p)].
Proof.
  intros (_ & Hp & _ & Hs & _). unfold count_check.
  rewrite (getitem_lookup _ _ _ Hp). simpl.
  destruct (Spec.passed r); simpl; [done|].
  rewrite (getitem_lookup _ _ _ Hs). simpl.
  destruct (Z.leb_spec 8 (Spec.severity r)); simpl.
  { rewrite (proj2 (Z.leb_le 4 _)), (proj2 (Z.ltb_ge _ 8)),
      (proj2 (Z.leb_le 1 _)), (proj2 (Z.ltb_ge _ 4)) by lia. done. }
  rewrite (proj2 (Z.ltb_lt _ 8)) by lia.
  destruct (Z.leb_spec 4 (Spec.severity r)); simpl.
  { rewrite (proj2 (Z.leb_le 1 _)), (proj2 (Z.ltb_ge _ 4)) by lia. done. }
  rewrite (proj2 (Z.ltb_lt _ 4)) by lia.
  by destruct (Z.leb_spec 1 (Spec.severity r)).
Qed.

Lemma count_of_cons (P : Spec.CheckResult -> Prop) `{!forall r, Decision (P r)}
    r rs :
  count_of P (r :: rs) = (if decide (P r) then 1 else 0) + count_of P rs.
Proof.
  unfold count_of. rewrite filter_cons. destruct (decide (P r)); simpl; lia.
Qed.

Lemma count_checks_represents ds rs a b c p :
  Forall2 represents ds rs ->
  count_checks ds [("Critical", a); ("Moderate", b); ("Minor", c); ("No Issues", p)]
  = Ok [("Critical",
          a + count_of (fun r => Spec.passed r = false /\ 8 <= Spec.severity r) rs);
        ("Moderate",
          b + count_of (fun r => Spec.passed r = false /\ 4 <= Spec.severity r < 8) rs);
        ("Minor",
          c + count_of (fun r => Spec.passed r = false /\ 1 <= Spec.severity r < 4) rs);
        ("No Issues", p + count_of (fun r => Spec.passed r = true) rs)].
Proof.
  intros H. revert a b c p.
  induction H as [|d r ds rs Hd _ IH]; intros a b c p; simpl.
  { unfold count_of. simpl. by rewrite !Z.add_0_r. }
  rewrite (count_check_represents _ _ _ _ _ _ Hd), bind_Ok_l, IH.
  rewrite !count_of_cons. f_equal.
  repeat (apply (f_equal2 cons); [apply (f_equal (pair _))|]); [..|done];
    destruct (Spec.passed r); simpl; repeat case_decide;
    repeat match goal with
      | |- context [Z.leb ?x ?y] => destruct (Z.leb_spec x y)
      | |- context [Z.ltb ?x ?y] => destruct (Z.ltb_spec x y)
      end; simpl; intuition (try lia; try done).
Qed.

Lemma bars_levels a b c p :
  bars [("Critical", a); ("Moderate", b); ("Minor", c); ("No Issues", p)]
  = [Bar (if 0 <? a then "Critical - " +:+ pretty a else "") a "red" "Critical";
     Bar (if 0 <? b then "Moderate - " +:+ pretty b else "") b "orange" "Moderate";
     Bar (if 0 <? c then "Minor - " +:+ pretty c else "") c "yellow" "Minor";
     Bar ("No Issues - " +:+ pretty p) p "green" "No Issues"].
Proof.
  unfold bars, custom_labels. simpl.
  destruct (0 <? a), (0 <? b), (0 <? c), (0 <? p); reflexivity.
Qed.

(** X14. On well-formed results the chart has the four bars Critical (failed,
    severity 8 or more), Moderate (failed, 4 to 7), Minor (failed, 1 to 3)
    and No Issues (passed), in this order and in red, orange, yellow and
    green. A failed result of severity below 1 is counted in no bar, so the
    bars add up to the number of results less those. *)
Theorem severity_chart_counts
    (ds : list (gmap string val)) (rs : list Spec.CheckResult) :
  Forall2 represents ds rs ->
  exists bs,
    create_severity_breakdown ds = Ok bs /\
    bar_name <$> bs = ["Critical"; "Moderate"; "Minor"; "No Issues"] /\
    bar_color <$> bs = ["red"; "orange"; "yellow"; "green"] /\
    bar_x <$> bs =
      [count_of (fun r => Spec.passed r = false /\ 8 <= Spec.severity r) rs;
       count_of (fun r => Spec.passed r = false /\ 4 <= Spec.severity r < 8) rs;
       count_of (fun r => Spec.passed r = false /\ 1 <= Spec.severity r < 4) rs;
       count_of (fun r => Spec.passed r = true) rs] /\
    foldr Z.add 0 (bar_x <$> bs)
    = Z.of_nat (length ds)
      - count_of (fun r => Spec.passed r = false /\ Spec.severity r < 1) rs.
Proof.
  intros H. unfold create_severity_breakdown, initial_levels.
  rewrite (count_checks_represents _ _ _ _ _ _ H), bind_Ok_l, bars_levels.
  eexists. split; [done|]. simpl. split_and!; [done..|].
  rewrite (Forall2_length _ _ _ H). clear H.
  induction rs as [|r rs IH]; [done|].
  rewrite !count_of_cons. simpl length.
  destruct (Spec.passed r); repeat case_decide; intuition (try lia; try done).
Qed.

Lemma severity_chart_counts_witness :
  exists bs,
    create_severity_breakdown (to_dict <$> scenario_A) = Ok bs /\
    bar_x <$> bs = [1; 1; 0; 2] /\
    foldr Z.add 0 (bar_x <$> bs) = 4.
Proof.
  destruct (severity_chart_counts (to_dict <$> scenario_A) scenario_A
              (Forall2_represents_to_dict scenario_A))
    as (bs & H & _ & _ & Hx & Hsum).
  exists bs. split; [exact H|]. split.
  - rewrite Hx. vm_compute. reflexivity.
  - rewrite Hsum. vm_compute. reflexivity.
Defined.

Lemma count_check_Ok d levels levels' :
  count_check d levels = Ok levels' ->
  levels' = levels \/
  exists level, level ∈ ["Critical"; "Moderate"; "Minor"; "No Issues"] /\
                levels' = bump level levels.
Proof.
  unfold count_check. intros H.
  apply bind_Ok in H as (p & _ & H).
  destruct (truthy p); simpl in H.
  { simplify_eq. right. eexists. split; [|done]. repeat constructor. }
  apply bind_Ok in H as (v & _ & H). apply bind_Ok in H as ([] & _ & H).
  { simplify_eq. right. eexists. split; [|done]. repeat constructor. }
  apply bind_Ok in H as (v' & _ & H). apply bind_Ok in H as ([] & _ & H).
  { simplify_eq. right. eexists. split; [|done]. repeat constructor. }
  apply bind_Ok in H as (v'' & _ & H). apply bind_Ok in H as ([] & _ & H).
  { simplify_eq. right. eexists. split; [|done]. repeat constructor. }
  simplify_eq. by left.
Qed.

Lemma count_checks_Ok ds a b c p levels :
  count_checks ds [("Critical", a); ("Moderate", b); ("Minor", c); ("No Issues", p)]
  = Ok levels ->
  exists a' b' c' p',
    levels = [("Critical", a'); ("Moderate", b'); ("Minor", c'); ("No Issues", p')] /\
    a <= a' /\ b <= b' /\ c <= c' /\ p <= p' /\
    a' + b' + c' + p' <= a + b + c + p + Z.of_nat (length ds).
Proof.
  revert a b c p. induction ds as [|d ds IH]; intros a b c p H; simpl in H.
  { simplify_eq. exists a, b, c, p. simpl. split_and!; [done|lia..]. }
  apply bind_Ok in H as (l' & [->|(level & Hin & ->)]%count_check_Ok & H).
  { apply IH in H as (a' & b' & c' & p' & -> & ?). exists a', b', c', p'.
    simpl length. split; [done|lia]. }
  rewrite !elem_of_cons, elem_of_nil in Hin.
  destruct Hin as [->|[->|[->|[->|[]]]]]; simpl in H;
    apply IH in H as (a' & b' & c' & p' & -> & ?); exists a', b', c', p';
    simpl length; (split; [done|lia]).
Qed.

(** X15. Whatever the input, when [create_severity_breakdown] returns, the
    figure has its four bars with counts that are not negative and add up to
    at most the number of results; a bar carries the label [level - count]
    when its count is positive or it is the No Issues bar, and the empty
    label otherwise. *)
Theorem severity_chart_shape
    (results : list (gmap string val)) (bs : list bar) :
  create_severity_breakdown results = Ok bs ->
  bar_name <$> bs = ["Critical"; "Moderate"; "Minor"; "No Issues"] /\
  Forall (fun b => 0 <= bar_x b) bs /\
  foldr Z.add 0 (bar_x <$> bs) <= Z.of_nat (length results) /\
  Forall (fun b =>
            bar_y b = if (0 <? bar_x b) || String.eqb (bar_name b) "No Issues"
                      then bar_name b +:+ " - " +:+ pretty (bar_x b)
                      else "") bs.
Proof.
  unfold create_severity_breakdown, initial_levels. intros H.
  apply bind_Ok in H as (levels & (a & b & c & p & -> & Hb)%count_checks_Ok & H).
  rewrite bars_levels in H. simplify_eq. simpl. split_and!.
  - done.
  - repeat constructor; simpl; lia.
  - lia.
  - repeat constructor; simpl; rewrite ?orb_false_r, ?orb_true_r; done.
Qed.

Lemma severity_chart_shape_witness :
  exists bs,
    create_severity_breakdown [sample_low; sample_passed_dirty] = Ok bs /\
    bar_y <$> bs = [""; ""; "Minor - 1"; "No Issues - 1"] /\
    Forall (fun b => 0 <= bar_x b) bs.
Proof.
  eexists. split; [vm_compute; reflexivity|]. split; [reflexivity|].
  apply (severity_chart_shape [sample_low; sample_passed_dirty]).
  vm_compute. reflexivity.
Defined.

Lemma count_of_normalize (P : Spec.CheckResult -> Prop)
    `{!forall r, Decision (P r)} rs :
  (forall r, P (Spec.normalize r) <-> P r) ->
  count_of P (Spec.normalize <$> rs) = count_of P rs.
Proof.
  intros HP. induction rs as [|r rs IH]; [done|].
  rewrite fmap_cons, !count_of_cons, IH.
  specialize (HP r).
  destruct (decide (P (Spec.normalize r))), (decide (P r)); try done;
    exfalso; tauto.
Qed.

Lemma count_of_none (P : Spec.CheckResult -> Prop)
    `{!forall r, Decision (P r)} rs :
  Forall (fun r => ~ P r) rs -> count_of P rs = 0.
Proof.
  induction 1 as [|r rs Hr _ IH]; [done|].
  rewrite count_of_cons, IH. by rewrite decide_False.
Qed.

Lemma count_of_split (P : Spec.CheckResult -> Prop)
    `{!forall r, Decision (P r)} rs :
  count_of P rs + count_of (fun r => ~ P r) rs = Z.of_nat (length rs).
Proof.
  induction rs as [|r rs IH]; [done|].
  rewrite !count_of_cons. simpl length. repeat case_decide; try done; lia.
Qed.

Lemma normalize_significant r :
  Spec.significant (Spec.normalize r) = Spec.significant r /\
  Spec.severity (Spec.normalize r)
  = (if Spec.significant r then Spec.severity r
     else if Spec.passed r then Spec.severity r else 0) /\
  Spec.passed (Spec.normalize r) = negb (Spec.significant r).
Proof.
  unfold Spec.normalize, Spec.significant.
  destruct r as [n [] e s c]; simpl; [done|].
  destruct (Z.ltb_spec s 4); simpl.
  - by rewrite (proj2 (Z.leb_gt 4 s)).
  - by rewrite (proj2 (Z.leb_le 4 s)).
Qed.

(** X16. In the app the chart is drawn after the normalization loop. On
    well-formed results its Minor bar is then empty and without label, every
    result is in one of the other three bars, and Critical and Moderate
    count the failed results of severity 8 or more and 4 to 7 of the raw
    list. *)
Theorem severity_chart_after_normalization
    (ds : list (gmap string val)) (rs : list Spec.CheckResult) :
  Forall2 represents ds rs ->
  exists out critical moderate no_issues,
    normalization ds = Ok out /\
    create_severity_breakdown out = Ok [critical; moderate;
                                        Bar "" 0 "yellow" "Minor"; no_issues] /\
    bar_x critical
    = count_of (fun r => Spec.passed r = false /\ 8 <= Spec.severity r) rs /\
    bar_x moderate
    = count_of (fun r => Spec.passed r = false /\ 4 <= Spec.severity r < 8) rs /\
    bar_x critical + bar_x moderate + bar_x no_issues = Z.of_nat (length ds).
Proof.
  intros H.
  destruct (normalization_represents ds rs H) as (out & Hout & Hrep & Hnorm).
  exists out. unfold create_severity_breakdown, initial_levels.
  rewrite (count_checks_represents _ _ _ _ _ _ Hrep), bind_Ok_l, bars_levels.
  assert (Hminor : count_of (fun r => Spec.passed r = false /\
                                      1 <= Spec.severity r < 4)
                     (Spec.normalize <$> rs) = 0).
  { apply count_of_none. eapply Forall_impl; [exact Hnorm|].
    intros r Hr [Hp Hs]. specialize (Hr Hp). lia. }
  rewrite Hminor. simpl. do 3 eexists. split_and!; [done|done|..]; simpl.
  - apply count_of_normalize. intros r.
    destruct (normalize_significant r) as (Hsig & Hsev & Hp).
    rewrite Hp, Hsev. unfold Spec.significant.
    destruct (Spec.passed r); simpl; [intuition done|].
    destruct (Z.leb_spec 4 (Spec.severity r)); simpl; intuition (try lia; try done).
  - apply count_of_normalize. intros r.
    destruct (normalize_significant r) as (Hsig & Hsev & Hp).
    rewrite Hp, Hsev. unfold Spec.significant.
    destruct (Spec.passed r); simpl; [intuition done|].
    destruct (Z.leb_spec 4 (Spec.severity r)); simpl; intuition (try lia; try done).
  - rewrite (Forall2_length _ _ _ H), <- (length_fmap Spec.normalize rs).
    generalize dependent (Spec.normalize <$> rs). clear. intros l _ Hnorm _.
    induction Hnorm as [|r l Hr _ IH]; [done|].
    rewrite !count_of_cons. simpl length. unfold Spec.normalized in Hr.
    destruct (Spec.passed r); repeat case_decide; intuition (try lia; try done).
Qed.

Lemma severity_chart_after_normalization_witness :
  exists out critical moderate no_issues,
    normalization (to_dict <$> scenario_A) = Ok out /\
    create_severity_breakdown out = Ok [critical; moderate;
                                        Bar "" 0 "yellow" "Minor"; no_issues] /\
    bar_x critical + bar_x moderate + bar_x no_issues = 4.
Proof.
  destruct (severity_chart_after_normalization (to_dict <$> scenario_A) scenario_A
              (Forall2_represents_to_dict scenario_A))
    as (out & c & m & p & Hout & Hbs & _ & _ & Hsum).
  exists out, c, m, p. split; [exact Hout|]. split; [exact Hbs|].
  rewrite Hsum. reflexivity.
Defined.

(** X17. Chart and insights agree on well-formed results: the Critical bar
    counts the items of the critical group, the Moderate bar those of the
    warning group. *)
Theorem severity_chart_matches_insights
    (ds : list (gmap string val)) (rs : list Spec.CheckResult)
    (strengths : gmap string sval) :
  Forall2 represents ds rs ->
  exists ins critical moderate minor no_issues,
    generate_recruiter_insights ds strengths = Ok ins /\
    create_severity_breakdown ds = Ok [critical; moderate; minor; no_issues] /\
    bar_x critical
    = Z.of_nat (length (flat_map items (filter (fun i => type i = "critical") ins))) /\
    bar_x moderate
    = Z.of_nat (length (flat_map items (filter (fun i => type i = "warning") ins))).
Proof.
  intros H. eexists. unfold create_severity_breakdown, initial_levels.
  rewrite (count_checks_represents _ _ _ _ _ _ H), bind_Ok_l, bars_levels.
  do 4 eexists. split_and!;
    [by apply generate_recruiter_insights_groups|done|..]; simpl.
  - by rewrite groups_critical, critical_group_items, length_fmap.
  - by rewrite groups_warning, warning_group_items, length_fmap.
Qed.

Lemma severity_chart_matches_insights_witness :
  exists ins critical moderate minor no_issues,
    generate_recruiter_insights (to_dict <$> scenario_A) scenario_C = Ok ins /\
    create_severity_breakdown (to_dict <$> scenario_A)
    = Ok [critical; moderate; minor; no_issues] /\
    bar_x critical
    = Z.of_nat (length (flat_map items (filter (fun i => type i = "critical") ins))) /\
    bar_x moderate
    = Z.of_nat (length (flat_map items (filter (fun i => type i = "warning") ins))).
Proof.
  exact (severity_chart_matches_insights (to_dict <$> scenario_A) scenario_A
           scenario_C (Forall2_represents_to_dict scenario_A)).
Defined.

(** ** The report text *)

Lemma sanitize_loop (acc text : list N) :
  foldl (fun result char =>
           if latin1 char then result ++ [char] else result ++ [space]) acc text
  = acc ++ ((fun char => if latin1 char then char else space) <$> text).
Proof.
  revert acc. induction text as [|c text IH]; intros acc; simpl.
  - by rewrite app_nil_r.
  - rewrite IH. destruct (latin1 c); by rewrite <- app_assoc.
Qed.

Lemma sanitize_text_map (text : list N) :
  sanitize_text (Some text)
  = (fun char => if latin1 char then char else space) <$> text.
Proof. unfold sanitize_text. by rewrite sanitize_loop. Qed.

(** X18. The sanitized text encodes in latin-1, has the length of the input
    and agrees with it at every position that encodes; the other positions
    hold a space. *)
Theorem sanitize_text_latin1 (text : list N) :
  Forall (fun char => latin1 char = true) (sanitize_text (Some text)) /\
  length (sanitize_text (Some text)) = length text /\
  forall i char, text !! i = Some char ->
    sanitize_text (Some text) !! i
    = Some (if latin1 char then char else space).
Proof.
  rewrite sanitize_text_map. split_and!.
  - apply Forall_fmap, Forall_forall. intros c _. simpl.
    by destruct (latin1 c) eqn:Hc.
  - by rewrite length_fmap.
  - intros i c Hi. by rewrite list_lookup_fmap, Hi.
Qed.

(** X19. Sanitizing leaves a text unchanged exactly when all of it encodes
    in latin-1; so sanitizing twice is sanitizing once. *)
Theorem sanitize_text_fixed_iff (text : list N) :
  (sanitize_text (Some text) = text <->
   Forall (fun char => latin1 char = true) text) /\
  sanitize_text (Some (sanitize_text (Some text))) = sanitize_text (Some text).
Proof.
  assert (Hfix : forall t, Forall (fun char => latin1 char = true) t ->
                           sanitize_text (Some t) = t).
  { intros t Ht. rewrite sanitize_text_map.
    induction Ht as [|c t Hc _ IH]; [done|]. by rewrite fmap_cons, Hc, IH. }
  split; [split; [|apply Hfix]|].
  - intros <-. rewrite sanitize_text_map.
    apply Forall_fmap, Forall_forall. intros c _. simpl.
    by destruct (latin1 c) eqn:Hc.
  - apply Hfix. rewrite sanitize_text_map.
    apply Forall_fmap, Forall_forall. intros c _. simpl.
    by destruct (latin1 c) eqn:Hc.
Qed.

(** X20. The bullet in front of an insight item never reaches the report:
    the sanitized bullet text is two spaces followed by the sanitized item.
    (The same holds for the cross mark in front of a failed check.) *)
Theorem bullet_never_printed (item : list N) :
  bullet_text item = [space; space] ++ sanitize_text (Some item) /\
  sanitize_text (Some ([cross_mark; space] ++ item))
  = [space; space] ++ sanitize_text (Some item).
Proof. unfold bullet_text. by rewrite !sanitize_text_map, !fmap_app. Qed.

(** ** The response of the model *)

Lemma extract_analysis_Returned results analysis :
  extract_analysis results = Returned analysis ->
  exists items,
    results = JDict items /\
    analysis = Parsed (default (JList []) (alist_lookup "checks" items))
                      (default (JDict []) (alist_lookup "resume_strengths" items)).
Proof.
  intros H. destruct results; try done. cbn in H. simplify_eq.
  eexists. split; reflexivity.
Qed.

Lemma decode_response_Returned json_loads text analysis :
  decode_response json_loads text = Returned analysis ->
  exists items,
    json_loads text = Returned (JDict items) /\
    analysis = Parsed (default (JList []) (alist_lookup "checks" items))
                      (default (JDict []) (alist_lookup "resume_strengths" items)).
Proof.
  unfold decode_response. destruct (json_loads text) as [results|]; [|done].
  intros (items & -> & ->)%extract_analysis_Returned. by exists items.
Qed.

(** X21. The function reports a parsed analysis only when [json.loads]
    decoded a dict, from the brace span of the answer or, without one, from
    the whole answer; the results are then the value under "checks" or the
    empty list, and nothing is reported with [st.error]. In particular an
    answer that decodes to a list of checks is never accepted: the branch
    for it comes after the [get] that a list does not have. *)
Theorem parsed_only_from_dict
    (json_loads : string -> attempt json) (response : attempt string)
    (results strengths : json) (errors : list string) :
  analyze_response json_loads response = (Parsed results strengths, errors) ->
  exists content json_str items,
    response = Returned content /\
    (brace_span content = Some json_str \/
     (brace_span content = None /\ json_str = content)) /\
    json_loads json_str = Returned (JDict items) /\
    results = default (JList []) (alist_lookup "checks" items) /\
    strengths = default (JDict []) (alist_lookup "resume_strengths" items) /\
    errors = [].
Proof.
  unfold analyze_response. destruct response as [content|e]; [|done].
  destruct (brace_span content) as [json_str|] eqn:Hspan.
  - destruct (decode_response json_loads json_str) as [analysis|] eqn:Hd; [|done].
    apply decode_response_Returned in Hd as (items & Hl & ->). intros H. simplify_eq.
    exists content, json_str, items. split_and!; auto.
  - destruct (decode_response json_loads content) as [analysis|] eqn:Hd; [|done].
    apply decode_response_Returned in Hd as (items & Hl & ->). intros H. simplify_eq.
    exists content, content, items. split_and!; auto.
Qed.

Lemma parsed_only_from_dict_witness :
  analyze_response sample_loads (Returned sample_answer)
  = (Parsed (JList []) (JDict []), []) /\
  exists content json_str items,
    Returned sample_answer = Returned content /\
    (brace_span content = Some json_str \/
     (brace_span content = None /\ json_str = content)) /\
    sample_loads json_str = Returned (JDict items).
Proof.
  assert (H : analyze_response sample_loads (Returned sample_answer)
              = (Parsed (JList []) (JDict []), [])) by (vm_compute; reflexivity).
  split; [exact H|].
  destruct (parsed_only_from_dict _ _ _ _ _ H)
    as (content & json_str & its & Hc & Hspan & Hl & _).
  by exists content, json_str, its.
Defined.

Lemma up_to_last_close_Some s t :
  up_to_last_close s = Some t ->
  exists mid post, s = mid +:+ "}" +:+ post /\ t = mid +:+ "}" /\
                   occurs close_brace post = false.
Proof.
  revert t. induction s as [|c s IH]; intros t H; simpl in H; [done|].
  destruct (up_to_last_close s) as [t'|] eqn:Ht.
  - simplify_eq. destruct (IH _ eq_refl) as (mid & post & -> & -> & Hpost).
    by exists (String c mid), post.
  - destruct (Ascii.eqb_spec c close_brace) as [->|]; [|done]. simplify_eq.
    exists EmptyString, s. split_and!; [done..|].
    clear IH. induction s as [|c s IH]; [done|]. simpl in *.
    destruct (up_to_last_close s); [done|].
    destruct (Ascii.eqb c close_brace); [done|]. by apply IH.
Qed.

Lemma up_to_last_close_app mid post :
  occurs close_brace post = false ->
  up_to_last_close (mid +:+ "}" +:+ post) = Some (mid +:+ "}").
Proof.
  intros Hpost.
  assert (Hnone : up_to_last_close post = None).
  { induction post as [|c post IH]; [done|]. simpl in *.
    apply orb_false_iff in Hpost as [Hc Hpost]. by rewrite IH, Hc. }
  induction mid as [|c mid IH].
  - change (up_to_last_close (String close_brace post) = Some (String close_brace EmptyString)).
    simpl. by rewrite Hnone.
  - change (up_to_last_close (String c (mid +:+ "}" +:+ post))
            = Some (String c (mid +:+ "}"))).
    simpl. by rewrite IH.
Qed.

(** X22. The text that is decoded when the answer has a brace span: it runs
    from the first opening brace of the answer to its last closing brace.
    That is, [brace_span content] is [s] exactly when the answer is
    [pre ++ s ++ post] with [s] of the form [{...}], no opening brace in
    [pre] and no closing brace in [post]. *)
Theorem brace_span_first_to_last (content s : string) :
  brace_span content = Some s <->
  exists pre mid post,
    content = pre +:+ "{" +:+ mid +:+ "}" +:+ post /\
    s = "{" +:+ mid +:+ "}" /\
    occurs open_brace pre = false /\ occurs close_brace post = false.
Proof.
  split.
  - revert s. induction content as [|c content IH]; intros s H; simpl in H; [done|].
    destruct (Ascii.eqb_spec c open_brace) as [->|Hc].
    + destruct (up_to_last_close content) as [t|] eqn:Ht.
      * simplify_eq.
        apply up_to_last_close_Some in Ht as (mid & post & -> & -> & Hpost).
        by exists EmptyString, mid, post.
      * exfalso. clear IH. revert s H.
        induction content as [|c content IH]; intros s H; simpl in *; [done|].
        destruct (up_to_last_close content); [done|].
        destruct (Ascii.eqb c close_brace); [done|].
        destruct (Ascii.eqb c open_brace); by eapply IH.
    + destruct (IH _ H) as (pre & mid & post & -> & -> & Hpre & Hpost).
      exists (String c pre), mid, post. split_and!; [done..| |done].
      simpl. rewrite Hpre. by rewrite (proj2 (Ascii.eqb_neq _ _) Hc).
  - intros (pre & mid & post & -> & -> & Hpre & Hpost).
    induction pre as [|c pre IH].
    + change (brace_span (String open_brace (mid +:+ "}" +:+ post))
              = Some (String open_brace (mid +:+ "}"))).
      simpl. by rewrite (up_to_last_close_app mid post Hpost).
    + change (brace_span (String c (pre +:+ "{" +:+ mid +:+ "}" +:+ post))
              = Some ("{" +:+ mid +:+ "}")).
      simpl in Hpre. apply orb_false_iff in Hpre as [Hc Hpre].
      simpl. rewrite Hc. by apply IH.
Qed.

(** ** The order of the results *)

Lemma sum_severities_Permutation l l' :
  l ≡ₚ l' -> Spec.sum_severities l = Spec.sum_severities l'.
Proof.
  induction 1 as [|r l l' _ IH|r r' l|l l' l'' _ IH1 _ IH2]; [done|..].
  - by rewrite !sum_severities_cons, IH.
  - rewrite !sum_severities_cons. lia.
  - by rewrite IH1.
Qed.

Lemma checks_score_Permutation l l' :
  l ≡ₚ l' -> Spec.checks_score l = Spec.checks_score l'.
Proof.
  intros H. unfold Spec.checks_score.
  pose proof (Permutation_length H) as Hlen.
  assert (Hp : length (filter (fun r => Spec.passed r = true) l)
               = length (filter (fun r => Spec.passed r = true) l'))
    by by rewrite H.
  assert (Hf : Spec.sum_severities (filter (fun r => Spec.passed r = false) l)
               = Spec.sum_severities (filter (fun r => Spec.passed r = false) l'))
    by (apply sum_severities_Permutation; by rewrite H).
  destruct l as [|r l], l' as [|r' l']; try done.
  cbv zeta. by rewrite Hlen, Hp, Hf.
Qed.

(** X23. The scores do not depend on the order of the results: two
    well-formed lists that are permutations of each other get the same
    overall score and the same category scores. (The insights list their
    items in input order.) *)
Theorem scores_order_independent
    (ds ds' : list (gmap string val)) (rs rs' : list Spec.CheckResult) :
  Forall2 represents ds rs -> Forall2 represents ds' rs' -> rs ≡ₚ rs' ->
  calculate_overall_score ds' = calculate_overall_score ds /\
  calculate_category_scores ds' = calculate_category_scores ds.
Proof.
  intros H H' Hperm. split.
  - unfold calculate_overall_score.
    rewrite (overall_score_with_represents _ _ _ H),
      (overall_score_with_represents _ _ _ H'). f_equal.
    assert (Hs : Spec.overall_score (Float.literal 77 100) rs'
                 = Spec.overall_score (Float.literal 77 100) rs).
    { unfold Spec.overall_score. f_equal.
      apply sum_severities_Permutation. by rewrite Hperm. }
    pose proof (Permutation_length Hperm) as Hlen.
    destruct rs, rs'; done.
  - rewrite (calculate_category_scores_represents _ _ H),
      (calculate_category_scores_represents _ _ H'). f_equal.
    apply category_scores_ext. intros C. unfold Spec.category_score.
    apply checks_score_Permutation. by rewrite Hperm.
Qed.

Lemma scores_order_independent_witness :
  calculate_overall_score (to_dict <$> reverse scenario_A)
  = calculate_overall_score (to_dict <$> scenario_A) /\
  calculate_category_scores (to_dict <$> reverse scenario_A)
  = calculate_category_scores (to_dict <$> scenario_A).
Proof.
  apply (scores_order_independent _ _ scenario_A (reverse scenario_A)).
  - apply Forall2_represents_to_dict.
  - apply Forall2_represents_to_dict.
  - symmetry. apply reverse_Permutation.
Defined.

(** ** The sign of a category score *)

Lemma nonneg_of_sign f :
  match f with
  | S754_zero s' | S754_infinity s' | S754_finite s' _ _ => s' = false
  | S754_nan => False
  end -> nonneg f.
Proof. destruct f as [| [] | | [] ]; simpl; intros; done. Qed.

(** [n / 10.0] for an int [n >= 1]. *)
Lemma div_10_nonneg n :
  1 <= n -> nonneg (Float.div (Float.of_int n) (Float.of_int 10)).
Proof.
  intros Hn.
  destruct (of_int_lower n 1 ltac:(split; [lia|by vm_compute]) Hn)
    as [->|(m1 & e1 & -> & He1 & Hle)]; [by vm_compute|].
  change (Float.of_int 10) with (S754_finite false 5629499534213120 (-49)).
  unfold Float.div, SFdiv, SFdiv_core_binary. simpl xorb.
  change (Zdigits2 (Z.pos m1)) with (Z.pos (digits2_pos m1)).
  change (Zdigits2 5629499534213120) with 53.
  set (d1 := Z.pos (digits2_pos m1)).
  pose proof (digits2_pos_bounds m1) as [Hlo _]. fold d1 in Hlo.
  assert (Hd1 : 1 <= d1) by (unfold d1; lia).
  set (e' := Z.min (fexp Float.prec Float.emax (d1 + e1 - (53 + -49))) (e1 - -49)).
  assert (He' : -108 <= e' /\ e' <= e1 + 49 /\ (e' <= d1 + e1 - 57)).
  { unfold e', fexp, SpecFloat.emin, Float.prec, Float.emax. lia. }
  set (s := e1 - -49 - e').
  assert (Hs : 0 <= s /\ 106 - d1 <= s) by (unfold s; lia).
  set (m' := match s with
             | 0 => Z.pos m1
             | Z.pos _ => Z.shiftl (Z.pos m1) s
             | Z.neg _ => 0
             end).
  assert (Hm' : m' = Z.pos m1 * 2 ^ s).
  { unfold m'. destruct s as [|p|p] eqn:Hsp; [simpl; lia| |lia].
    by rewrite Z.shiftl_mul_pow2. }
  assert (Hbig : 2 ^ 105 <= m').
  { rewrite Hm'.
    apply Z.le_trans with (2 ^ (d1 - 1) * 2 ^ s);
      [|apply Z.mul_le_mono_nonneg_r; [apply Z.pow_nonneg|]; lia].
    rewrite <- Z.pow_add_r by lia. apply Z.pow_le_mono_r; lia. }
  pose proof (Z_div_mod m' 5629499534213120 ltac:(done)) as Hdiv.
  destruct (Z.div_eucl m' 5629499534213120) as [q r].
  destruct Hdiv as [Hq Hr].
  assert (Hqpos : 0 < q).
  { assert (5629499534213120 < 2 ^ 105) by by vm_compute. nia. }
  destruct q as [|qp|qp]; [lia| |lia].
  apply nonneg_of_sign.
  match goal with
  | |- context [binary_round_aux _ _ _ _ _ ?l] =>
      pose proof (binary_round_aux_sign false qp e' l ltac:(lia)) as Hsign
  end.
  by destruct (binary_round_aux _ _ _ _ _ _).
Qed.

Lemma tenths_nearest_nonneg m e : 0 <= Float.tenths_nearest m e.
Proof.
  unfold Float.tenths_nearest. cbv zeta.
  destruct (Z.leb_spec 0 e).
  - pose proof (Z.pow_nonneg 2 e ltac:(lia)). nia.
  - assert (Hd : 0 < 2 ^ (- e)) by (apply Z.pow_pos_nonneg; lia).
    pose proof (Z.div_pos (10 * Z.pos m) (2 ^ (- e)) ltac:(lia) Hd).
    destruct (_ ?= _); [destruct (Z.even _)| |]; lia.
Qed.

Lemma round1_nonneg f : nonneg f -> nonneg (Float.round1 f).
Proof.
  destruct f as [s|[]| |[] m e]; try done. intros _. unfold Float.round1.
  cbv zeta. pose proof (tenths_nearest_nonneg m e) as Hn.
  destruct (Z.eqb_spec (Float.tenths_nearest m e) 0); [done|].
  apply div_10_nonneg. simpl. lia.
Qed.

Lemma num_le_0_nonneg f : nonneg f -> num_le (NInt 0) (NFloat f) = true.
Proof.
  destruct f as [s|[]| |[] m e]; try done; intros _.
  unfold num_le, num_compare, Float.compare_int. simpl cond_Zopp.
  destruct (Z.leb_spec 0 e).
  - pose proof (Z.pow_pos_nonneg 2 e ltac:(lia) ltac:(lia)).
    assert (Hc : (Z.pos m * 2 ^ e ?= 0) = Gt) by (apply Z.compare_gt_iff; nia).
    by rewrite Hc.
  - done.
Qed.

Lemma num_gt_0_nonneg f : num_gt (NFloat f) (NInt 0) = true -> nonneg f.
Proof.
  destruct f as [s|[]| |[] m e]; try done.
  unfold num_gt, num_compare, Float.compare_int. simpl cond_Zopp.
  change (- Z.pos m) with (Z.neg m).
  destruct (Z.leb_spec 0 e).
  - pose proof (Z.pow_pos_nonneg 2 e ltac:(lia) ltac:(lia)).
    assert (Hc : (Z.neg m * 2 ^ e ?= 0) = Lt) by (apply Z.compare_lt_iff; nia).
    by rewrite Hc.
  - done.
Qed.

(** [round(max(0, x), 1)] is never negative. *)
Lemma round_max_nonneg x :
  num_le (NInt 0) (py_round1 (py_max (NInt 0) x)) = true.
Proof.
  unfold py_max. destruct (num_gt x (NInt 0)) eqn:Hgt; [|done].
  destruct x as [z|f]; simpl.
  - unfold num_gt, num_le in *. simpl in *. by destruct z.
  - by apply num_le_0_nonneg, round1_nonneg, num_gt_0_nonneg.
Qed.

Lemma score_category_nonneg checks v :
  score_category checks = Ok v -> num_le (NInt 0) v = true.
Proof.
  unfold score_category. destruct checks as [|c checks]; intros H.
  { by simplify_eq. }
  apply bind_Ok in H as (p & _ & H). cbv zeta in H.
  apply bind_Ok in H as (S & _ & H).
  apply bind_Ok in H as (ded & _ & H).
  apply bind_Ok in H as (score & _ & H). simplify_eq.
  apply round_max_nonneg.
Qed.

Lemma score_categories_nonneg names categories acc scores :
  score_categories names categories acc = Ok scores ->
  map_Forall (fun _ v => num_le (NInt 0) v = true) acc ->
  map_Forall (fun _ v => num_le (NInt 0) v = true) scores.
Proof.
  revert acc. induction names as [|C names IH]; intros acc H Hacc; simpl in H.
  - by simplify_eq.
  - apply bind_Ok in H as (s & Hs & H). apply (IH _ H).
    apply map_Forall_insert_2; [|done]. by eapply score_category_nonneg.
Qed.

(** X24. Whatever the input, no category score that
    [calculate_category_scores] returns is negative. *)
Theorem category_scores_not_negative
    (category_results : list (gmap string val)) (scores : gmap string num)
    (C : string) (v : num) :
  calculate_category_scores category_results = Ok scores ->
  scores !! C = Some v ->
  num_le (NInt 0) v = true.
Proof.
  unfold calculate_category_scores. intros H HC.
  apply bind_Ok in H as (categories & _ & H).
  apply score_categories_nonneg in H; [|apply map_Forall_empty].
  by apply (H C v).
Qed.

Lemma category_scores_not_negative_witness :
  exists scores,
    calculate_category_scores (to_dict <$> scenario_A) = Ok scores /\
    scores !! "Format" = Some (NFloat (Float.of_int 100)) /\
    num_le (NInt 0) (NFloat (Float.of_int 100)) = true.
Proof.
  pose proof (calculate_category_scores_represents (to_dict <$> scenario_A)
                scenario_A (Forall2_represents_to_dict scenario_A)) as H.
  eexists. split; [exact H|].
  assert (HC : foldl (fun m C => <[C := Spec.category_score C
                                          (Spec.demote <$> scenario_A)]> m)
                 (∅ : gmap string num) category_names !! "Format"
               = Some (NFloat (Float.of_int 100))) by (vm_compute; reflexivity).
  split; [exact HC|].
  exact (category_scores_not_negative _ _ "Format" _ H HC).
Defined.

(** ** Records that lack a field *)

Lemma is_significant_lacking d :
  lacks_needed_field d -> exists e, is_significant d = Raise e.
Proof.
  unfold is_significant.
  intros [Hp|(p & Hp & Ht & Hs)].
  - rewrite (getitem_missing _ _ Hp). by eexists.
  - rewrite (getitem_lookup _ _ _ Hp). simpl. rewrite Ht.
    rewrite (getitem_missing _ _ Hs). by eexists.
Qed.

Lemma filterM_Raise {A} (f : A -> res bool) (l : list A) :
  Exists (fun x => exists e, f x = Raise e) l -> exists e, filterM f l = Raise e.
Proof.
  induction 1 as [x l [e He]|x l _ [e IH]]; simpl.
  - rewrite He. by eexists.
  - destruct (f x) as [b|e']; simpl; [|by eexists]. rewrite IH. by eexists.
Qed.

Lemma group_checks_Raise results categories :
  Exists lacks_needed_field results ->
  exists e, group_checks results categories = Raise e.
Proof.
  intros H. revert categories.
  induction H as [d l [e He]%is_significant_lacking|d l _ IH]; intros categories; simpl.
  - unfold group_check. rewrite He. by eexists.
  - destruct (group_check d categories) as [c|e']; simpl; [|by eexists]. apply IH.
Qed.

Lemma count_check_lacking d levels :
  lacks_needed_field d -> exists e, count_check d levels = Raise e.
Proof.
  unfold count_check.
  intros [Hp|(p & Hp & Ht & Hs)].
  - rewrite (getitem_missing _ _ Hp). by eexists.
  - rewrite (getitem_lookup _ _ _ Hp). simpl. rewrite Ht. simpl.
    rewrite (getitem_missing _ _ Hs). by eexists.
Qed.

Lemma count_checks_Raise results levels :
  Exists lacks_needed_field results ->
  exists e, count_checks results levels = Raise e.
Proof.
  intros H. revert levels.
  induction H as [d l Hd|d l _ IH]; intros levels; simpl.
  - destruct (count_check_lacking d levels Hd) as [e ->]. by eexists.
  - destruct (count_check d levels) as [c|e']; simpl; [|by eexists]. apply IH.
Qed.

(** X25. A record without [passed], or a failed record without [severity],
    anywhere in the list makes each of the four functions that read the
    results raise: none of them skips or repairs such a record. *)
Theorem missing_field_raises_everywhere
    (results : list (gmap string val)) (strengths : gmap string sval) :
  Exists lacks_needed_field results ->
  (exists e, calculate_overall_score results = Raise e) /\
  (exists e, calculate_category_scores results = Raise e) /\
  (exists e, generate_recruiter_insights results strengths = Raise e) /\
  (exists e, create_severity_breakdown results = Raise e).
Proof.
  intros H.
  assert (Hsig : exists e, filterM is_significant results = Raise e).
  { apply filterM_Raise. eapply Exists_impl; [exact H|].
    intros d. apply is_significant_lacking. }
  destruct Hsig as [e Hsig]. split_and!.
  - unfold calculate_overall_score.
    rewrite overall_score_with_nonempty by (intros ->; by apply Exists_nil in H).
    rewrite Hsig. by eexists.
  - unfold calculate_category_scores.
    destruct (group_checks_Raise results empty_categories H) as [e' ->].
    by eexists.
  - unfold generate_recruiter_insights. rewrite Hsig. by eexists.
  - unfold create_severity_breakdown.
    destruct (count_checks_Raise results initial_levels H) as [e' ->].
    by eexists.
Qed.

Lemma missing_field_raises_everywhere_witness :
  (exists e, calculate_overall_score [sample_low; delete "passed" sample_low]
             = Raise e) /\
  (exists e, calculate_category_scores [sample_low; delete "passed" sample_low]
             = Raise e) /\
  (exists e, generate_recruiter_insights [sample_low; delete "passed" sample_low]
               scenario_C = Raise e) /\
  (exists e, create_severity_breakdown [sample_low; delete "passed" sample_low]
             = Raise e).
Proof.
  apply (missing_field_raises_everywhere [sample_low; delete "passed" sample_low]
           scenario_C).
  apply Exists_cons_tl, Exists_cons_hd. left. vm_compute. reflexivity.
Defined.

(** ** The earlier copy of the overall score *)

Lemma K12_eq : K12 = S754_finite false 5404319552844595 (-52).
Proof. by vm_compute. Qed.

Lemma score_large_12 T : 84 <= T -> Spec.score_of_total K12 T = NInt 0.
Proof.
  intros HT. rewrite K12_eq.
  apply (score_of_total_large _ _ 84); [lia|split; [lia|by vm_compute]| |done].
  by vm_compute.
Qed.

Lemma score_table_12_lookup T :
  0 <= T <= 84 -> score_table_12 !! Z.to_nat T = Some (Spec.score_of_total K12 T).
Proof.
  intros HT. unfold score_table_12. rewrite list_lookup_fmap.
  rewrite lookup_seqZ_lt by lia. simpl. f_equal. f_equal. lia.
Qed.

(** X26. The earlier copy, with its penalty of 1.2 per severity point,
    bottoms out sooner: on a non-empty list its score is 0 exactly when the
    severities of the significant issues add up to 84 or more. *)
Theorem overall_score_c4_zero_iff
    (results sig : list (gmap string val)) (T : Z) (v : num) :
  results <> [] ->
  filterM is_significant results = Ok sig ->
  sum_severity 0 sig = Ok T ->
  calculate_overall_score_c4 results = Ok v ->
  (v = NInt 0 <-> 84 <= T).
Proof.
  intros Hne Hsig HT Hv.
  assert (v = Spec.score_of_total K12 T) as ->.
  { unfold calculate_overall_score_c4 in Hv.
    rewrite overall_score_with_nonempty in Hv by done.
    rewrite Hsig, bind_Ok_l, HT, bind_Ok_l in Hv. by simplify_eq. }
  split; [|apply score_large_12].
  intros Hz. destruct (Z.le_gt_cases 84 T) as [|Hlt]; [done|exfalso].
  destruct (sum_severity_significant sig (filterM_Forall _ _ _ Hsig))
    as (t & Ht & Hs). rewrite Hs in HT. simplify_eq.
  assert (H : forallb (fun x => match x with NInt 0 => false | _ => true end)
                (take 84 score_table_12) = true) by by vm_compute.
  rewrite forallb_forall in H.
  assert (Hin : In (NInt 0) (take 84 score_table_12)); [|by specialize (H _ Hin)].
  apply list_elem_of_In. eapply (list_elem_of_lookup_2 _ (Z.to_nat (0 + t))).
  rewrite lookup_take_lt by lia. rewrite score_table_12_lookup by lia.
  by rewrite Hz.
Qed.

Lemma overall_score_c4_zero_iff_witness :
  exists v,
    calculate_overall_score_c4 (to_dict <$> scenario_A) = Ok v /\
    (v = NInt 0 <-> 84 <= 14).
Proof.
  pose proof (overall_score_with_represents (Float.literal 12 10)
                (to_dict <$> scenario_A) scenario_A
                (Forall2_represents_to_dict scenario_A)) as H.
  destruct (filterM_represents is_significant Spec.significant
              (to_dict <$> scenario_A) scenario_A is_significant_represents
              (Forall2_represents_to_dict scenario_A)) as (sig & Hsig & Hrep).
  eexists. split; [exact H|].
  apply (overall_score_c4_zero_iff (to_dict <$> scenario_A) sig 14);
    [discriminate|exact Hsig| |exact H].
  exact (sum_severity_represents sig _ 0 Hrep).
Defined.
